(** * claude-task-monitor: the aggregation and synchronisation core

    A shallow embedding of [src/index.ts]: the configuration store
    ([loadConfig], [saveConfig], [validateConfig], the POST /api/config
    handler), the task scan ([readTaskFile], [getTaskLists],
    [getAllTaskListSummaries]), the publisher ([writeFiles]), the debounce
    timer ([scheduleWriteFiles]) and the watcher's unlink handler with
    [archiveTaskList]; the start of the process with [migrateOldConfig];
    and, of the script of the dashboard, [truncate], [escapeHtml],
    [getBlockerStatus], the count of available tasks and the selection of
    the list in [render], [loadSettings], [saveSettings] and the naming
    of agents.

    Modelling conventions.
    - A JavaScript number is a [number]: NaN, the two infinities, or a
      finite value held as a rational.  Comparisons with NaN are false.
    - A file's text is represented by what [JSON.parse] makes of it
      ([NotJSON] when it throws); [JSON.stringify] followed by [JSON.parse]
      is the identity on finite numbers, strings and arrays of strings, and
      turns a non-finite number into [null].
    - The built-ins whose result depends on number formatting or on Unicode
      tables ([parseInt], [Number] on strings and objects, [trim]) are the
      fields of the class [Builtins]; every theorem holds for all of them.
      Those of the browser ([parseInt] with radix 10, [String] on numbers,
      the sum of two doubles, [decodeURIComponent]) are the fields of the
      class [Browser].
    - [Array.prototype.sort] is a stable insertion sort.  ECMAScript fixes
      the result for a consistent comparator, and there every conforming
      engine returns this list; what is proved about the order of a sorted
      array is proved for such comparators.
    - Reads may fail; a write to disk succeeds, and a file that was just
      read can be stat'ed (one pass sees one state of the tree).
    - The [id] of a task converts to a string: an [id] that is an object
      with a [toString] of its own, on which [parseInt] throws inside the
      sort, is not among the inputs.  Where the program converts a value
      of a request ([Number] on [pollInterval]), the conversion can
      throw, and does in the model.
    - Time is in milliseconds, a [Z]. *)

From Stdlib Require Import QArith Qround ZArith Bool Ascii String List Sorted Permutation Lia.
From Stdlib Require Import DecimalString DecimalPos.
From stdpp Require Import gmap strings list sorting.

Local Open Scope Z_scope.
Local Open Scope string_scope.
Local Open Scope list_scope.

(** ** JavaScript values *)

Inductive number : Type :=
| NaN
| NegInf
| PosInf
| Fin (q : Q).

Definition num_of_Z (z : Z) : number := Fin (inject_Z z).

Definition isNaN (n : number) : bool :=
  match n with NaN => true | _ => false end.

Definition isFinite (n : number) : bool :=
  match n with Fin _ => true | _ => false end.

(** [a <= b] and [a < b] on numbers, false as soon as one side is NaN. *)
Definition num_le (a b : number) : bool :=
  match a, b with
  | NaN, _ | _, NaN => false
  | NegInf, _ => true
  | _, PosInf => true
  | PosInf, _ => false
  | Fin _, NegInf => false
  | Fin x, Fin y => Qle_bool x y
  end.

Definition num_lt (a b : number) : bool :=
  match a, b with
  | NaN, _ | _, NaN => false
  | NegInf, NegInf => false
  | NegInf, _ => true
  | PosInf, _ => false
  | Fin _, PosInf => true
  | Fin _, NegInf => false
  | Fin x, Fin y => negb (Qle_bool y x)
  end.

Definition num_ge (a b : number) : bool := num_le b a.
Definition num_gt (a b : number) : bool := num_lt b a.

(** [a - b]. *)
Definition num_sub (a b : number) : number :=
  match a, b with
  | NaN, _ | _, NaN => NaN
  | PosInf, PosInf => NaN
  | NegInf, NegInf => NaN
  | PosInf, _ => PosInf
  | NegInf, _ => NegInf
  | Fin _, PosInf => NegInf
  | Fin _, NegInf => PosInf
  | Fin x, Fin y => Fin (x - y)
  end.

(** A number denotes an integer. *)
Definition isInteger (n : number) : bool :=
  match n with
  | Fin q => Pos.eqb (Qden (Qred q)) 1
  | _ => false
  end.

#[local] Set Warnings "-register-all".

(** A value produced by [JSON.parse].  An object is the list of its own
    properties; after parsing, a key occurs once. *)
Inductive json : Type :=
| JNull
| JBool (b : bool)
| JNum (n : number)
| JStr (s : string)
| JArr (items : list json)
| JObj (props : list (string * json)).

Definition str_empty (s : string) : bool :=
  match s with EmptyString => true | _ => false end.

(** [if (v)]: the falsy JSON values are null, false, 0 and the empty string. *)
Definition truthy (v : json) : bool :=
  match v with
  | JNull => false
  | JBool b => b
  | JNum NaN => false
  | JNum (Fin q) => negb (Qeq_bool q 0)
  | JNum _ => true
  | JStr s => negb (str_empty s)
  | JArr _ | JObj _ => true
  end.

Fixpoint assoc (k : string) (ps : list (string * json)) : option json :=
  match ps with
  | [] => None
  | (k', v) :: ps' => if String.eqb k k' then Some v else assoc k ps'
  end.

(** [v.k] for a non-null [v]; [None] is [undefined].  Strings, numbers,
    booleans and arrays have none of the properties read in this program. *)
Definition prop (k : string) (v : json) : option json :=
  match v with
  | JObj ps => assoc k ps
  | _ => None
  end.

(** [k in v]; [None] when the operator throws a TypeError (right operand
    not an object). *)
Definition has_prop (k : string) (v : json) : option bool :=
  match v with
  | JObj ps => Some (bool_decide (is_Some (assoc k ps)))
  | JArr _ => Some false
  | _ => None
  end.

(** The built-in functions left abstract. *)
Class Builtins : Type := {
  (** [parseInt(x)], [x] a property that may be [undefined]; [x] is
      taken to convert to a string (see the conventions). *)
  parseInt : option json -> number;
  (** [Number(s)] for a string [s]. *)
  StringToNumber : string -> number;
  (** The string an array or an object converts to; [None] when the
      conversion throws a TypeError (an object whose own [toString] is
      not a function, or an array that holds one). *)
  ToPrimitive : json -> option string;
  (** [s.trim()]; trimming the empty string leaves it empty. *)
  trim : string -> string;
  trim_empty : trim EmptyString = EmptyString
}.

(** [Number(v)]; [None] when the conversion throws. *)
Definition Number `{Builtins} (v : json) : option number :=
  match v with
  | JNull => Some (num_of_Z 0)
  | JBool b => Some (if b then num_of_Z 1 else num_of_Z 0)
  | JNum n => Some n
  | JStr s => Some (StringToNumber s)
  | JArr _ | JObj _ => option_map StringToNumber (ToPrimitive v)
  end.

(** ** Strings *)

(** [s.endsWith(suffix)]. *)
Definition endsWith (s suffix : string) : bool :=
  let n := String.length s in
  let m := String.length suffix in
  (m <=? n)%nat && String.eqb (substring (n - m) m s) suffix.

(** [s.includes(sub)]. *)
Fixpoint includes (s sub : string) : bool :=
  String.prefix sub s ||
  match s with
  | EmptyString => false
  | String _ s' => includes s' sub
  end.

(** ** Array.prototype.sort *)

Section ArraySort.
Context {A : Type} (comparefn : A -> A -> number).

(** [a] is placed after [b] when [comparefn(a, b) > 0]; a NaN result
    counts as 0. *)
Definition sorts_after (a b : A) : bool := num_gt (comparefn a b) (num_of_Z 0).

Fixpoint sort_insert (x : A) (l : list A) : list A :=
  match l with
  | [] => [x]
  | y :: l' => if sorts_after x y then y :: sort_insert x l' else x :: l
  end.

Fixpoint Array_sort (l : list A) : list A :=
  match l with
  | [] => []
  | x :: l' => sort_insert x (Array_sort l')
  end.
End ArraySort.

(** ** The configuration store *)

Record MonitorConfig : Type := {
  projectDir : string;
  pollInterval : number;
  agentNames : list string
}.

(** [DEFAULT_CONFIG]; [cwd] is [process.cwd()]. *)
Definition DEFAULT_CONFIG (cwd : string) : MonitorConfig := {|
  projectDir := cwd;
  pollInterval := num_of_Z 2000;
  agentNames :=
    ["alpha"; "beta"; "gamma"; "delta"; "epsilon"; "zeta"; "eta"; "theta";
     "iota"; "kappa"; "lambda"; "mu"; "nu"; "xi"; "omicron"; "pi"; "rho";
     "sigma"; "tau"; "upsilon"; "phi"; "chi"; "psi"; "omega"]
|}.

(** The text of a file, seen through [JSON.parse]. *)
Inductive file_text : Type :=
| NotJSON
| Doc (j : json).

(** The persisted configuration file. *)
Inductive stored : Type :=
| Absent
| Unreadable
| Text (t : file_text).

Definition is_nonempty_string (v : json) : bool :=
  match v with JStr s => negb (str_empty s) | _ => false end.

Definition string_of (v : json) : string :=
  match v with JStr s => s | _ => "" end.

Definition load_projectDir (cwd : string) (parsed : json) : string :=
  match prop "projectDir" parsed with
  | Some (JStr s) => if negb (str_empty s) then s else projectDir (DEFAULT_CONFIG cwd)
  | _ => projectDir (DEFAULT_CONFIG cwd)
  end.

Definition load_pollInterval (cwd : string) (parsed : json) : number :=
  match prop "pollInterval" parsed with
  | Some (JNum n) =>
      if num_ge n (num_of_Z 500) && num_le n (num_of_Z 60000) then n
      else pollInterval (DEFAULT_CONFIG cwd)
  | _ => pollInterval (DEFAULT_CONFIG cwd)
  end.

Definition load_agentNames (cwd : string) (parsed : json) : list string :=
  match prop "agentNames" parsed with
  | Some (JArr items) =>
      if negb (Nat.eqb (List.length items) 0) && forallb is_nonempty_string items
      then List.map string_of items
      else agentNames (DEFAULT_CONFIG cwd)
  | _ => agentNames (DEFAULT_CONFIG cwd)
  end.

(** [loadConfig].  A property read on [null] throws, which the catch turns
    into the defaults, like a file that cannot be read or parsed. *)
Definition loadConfig (cwd : string) (file : stored) : MonitorConfig :=
  match file with
  | Text (Doc JNull) => DEFAULT_CONFIG cwd
  | Text (Doc parsed) => {|
      projectDir := load_projectDir cwd parsed;
      pollInterval := load_pollInterval cwd parsed;
      agentNames := load_agentNames cwd parsed
    |}
  | _ => DEFAULT_CONFIG cwd
  end.

(** What [JSON.stringify] leaves of a number. *)
Definition json_of_number (n : number) : json :=
  if isFinite n then JNum n else JNull.

Definition config_to_json (c : MonitorConfig) : json :=
  JObj [("projectDir", JStr (projectDir c));
        ("pollInterval", json_of_number (pollInterval c));
        ("agentNames", JArr (List.map JStr (agentNames c)))].

(** [saveConfig]: the new content of the configuration file. *)
Definition saveConfig (config : MonitorConfig) : stored :=
  Text (Doc (config_to_json config)).

(** The outcome of a computation that can reject its input or throw. *)
Inductive outcome (A : Type) : Type :=
| Ok (a : A)
| Reject (error : string)
| Throw.
Arguments Ok {A} a.
Arguments Reject {A} error.
Arguments Throw {A}.

Definition bind {A B : Type} (m : outcome A) (f : A -> outcome B) : outcome B :=
  match m with
  | Ok a => f a
  | Reject e => Reject e
  | Throw => Throw
  end.

Notation "'do' x <- m ; k" := (bind m (fun x => k))
  (at level 10, x name, m at level 100, k at level 200).

Definition in_input (k : string) (input : json) : outcome bool :=
  match has_prop k input with
  | Some b => Ok b
  | None => Throw
  end.

Definition set_projectDir (c : MonitorConfig) (s : string) : MonitorConfig :=
  {| projectDir := s; pollInterval := pollInterval c; agentNames := agentNames c |}.
Definition set_pollInterval (c : MonitorConfig) (n : number) : MonitorConfig :=
  {| projectDir := projectDir c; pollInterval := n; agentNames := agentNames c |}.
Definition set_agentNames (c : MonitorConfig) (l : list string) : MonitorConfig :=
  {| projectDir := projectDir c; pollInterval := pollInterval c; agentNames := l |}.

Definition err_projectDir : string := "projectDir must be a non-empty string".
Definition err_pollInterval : string := "pollInterval must be a number between 500 and 60000".
Definition err_agentNames : string := "agentNames must be a non-empty array of strings".
Definition err_agentName : string := "Each agent name must be a non-empty string".

Section Validate.
Context `{Builtins}.

Definition is_blank (v : json) : bool :=
  match v with JStr s => str_empty (trim s) | _ => true end.

Definition validate_projectDir (input : json) (config : MonitorConfig)
  : outcome MonitorConfig :=
  do present <- in_input "projectDir" input;
  if present : bool then
    match prop "projectDir" input with
    | Some (JStr s) =>
        if str_empty (trim s) then Reject err_projectDir
        else Ok (set_projectDir config (trim s))
    | _ => Reject err_projectDir
    end
  else Ok config.

Definition validate_pollInterval (input : json) (config : MonitorConfig)
  : outcome MonitorConfig :=
  do present <- in_input "pollInterval" input;
  if present : bool then
    match prop "pollInterval" input with
    | Some v =>
        match Number v with
        | Some val =>
            if isNaN val || num_lt val (num_of_Z 500) || num_gt val (num_of_Z 60000)
            then Reject err_pollInterval
            else Ok (set_pollInterval config val)
        | None => Throw
        end
    | None => Reject err_pollInterval
    end
  else Ok config.

Definition validate_agentNames (input : json) (config : MonitorConfig)
  : outcome MonitorConfig :=
  do present <- in_input "agentNames" input;
  if present : bool then
    match prop "agentNames" input with
    | Some (JArr items) =>
        if Nat.eqb (List.length items) 0 then Reject err_agentNames
        else if existsb is_blank items then Reject err_agentName
        else Ok (set_agentNames config (List.map (fun n => trim (string_of n)) items))
    | _ => Reject err_agentNames
    end
  else Ok config.

(** [validateConfig], started from a copy of [currentConfig]. *)
Definition validateConfig (currentConfig : MonitorConfig) (input : json)
  : outcome MonitorConfig :=
  do config <- validate_projectDir input currentConfig;
  do config <- validate_pollInterval input config;
  validate_agentNames input config.
End Validate.

(** ** The task scan *)

(** An entry of a list directory: [fcontent] is [None] when
    [readFileSync] throws. *)
Record file : Type := {
  fname : string;
  fcontent : option file_text;
  mtime : Z
}.

(** An entry of the tasks directory; [entries] is [None] when
    [readdirSync] on it throws, [hasPromptFile] tells whether it holds a
    [prompt.md]. *)
Record dirent : Type := {
  dname : string;
  isDirectory : bool;
  hasPromptFile : bool;
  entries : option (list file)
}.

(** The tree under [TASKS_DIR]. *)
Inductive tasks_dir : Type :=
| NoTasksDir
| TasksDirError
| TasksDir (listDirs : list dirent).

Record ClaudeTaskList : Type := {
  listId : string;
  tasks : list json;
  lastModified : Z
}.

Record TaskListSummary : Type := {
  sum_id : string;
  sum_path : string;
  taskCount : nat;
  pendingCount : nat;
  inProgressCount : nat;
  completedCount : nat;
  sum_lastModified : Z;
  hasPrompt : bool
}.

Record TaskMonitorData : Type := {
  taskLists : list ClaudeTaskList;
  availableLists : list TaskListSummary;
  selectedListId : string;
  templates : list string;
  data_projectDir : string
}.

(** An entry of [taskDataCache]. *)
Record cached : Type := {
  cached_tasks : list json;
  cached_lastModified : Z
}.

(** [readTaskFile]: the parsed value, or [null]. *)
Definition readTaskFile (f : file) : json :=
  match fcontent f with
  | Some (Doc j) => j
  | _ => JNull
  end.

(** One turn of the loop over the files of a list directory. *)
Definition scan_file (acc : list json * Z) (f : file) : list json * Z :=
  let '(tasks, lastModified) := acc in
  if negb (endsWith (fname f) ".json") then acc
  else
    let task := readTaskFile f in
    if truthy task
    then (tasks ++ [task],
          if (mtime f >? lastModified)%Z then mtime f else lastModified)
    else acc.

Definition scan_files (taskFiles : list file) : list json * Z :=
  fold_left scan_file taskFiles ([], 0).

Definition status_is (s : string) (t : json) : bool :=
  match prop "status" t with
  | Some (JStr x) => String.eqb x s
  | _ => false
  end.

Definition path_join (a b : string) : string := a ++ "/" ++ b.

Definition skipped (dir : dirent) : bool :=
  negb (isDirectory dir) || String.eqb (dname dir) ".archive".

(** [(a, b) => b.lastModified.getTime() - a.lastModified.getTime()]. *)
Definition by_recency {A : Type} (stamp : A -> Z) (a b : A) : number :=
  num_of_Z (stamp b - stamp a).

Section Scan.
Context `{Builtins} (homedir : string).

Definition TASKS_DIR : string := path_join (path_join homedir ".claude") "tasks".

(** [(a, b) => parseInt(a.id) - parseInt(b.id)]. *)
Definition by_id (a b : json) : number :=
  num_sub (parseInt (prop "id" a)) (parseInt (prop "id" b)).

(** One turn of the loop of [getTaskLists] over the list directories. *)
Definition scan_list (acc : list ClaudeTaskList * gmap string cached) (dir : dirent)
  : list ClaudeTaskList * gmap string cached :=
  let '(taskLists, cache) := acc in
  if skipped dir then acc
  else
    match entries dir with
    | None => acc
    | Some taskFiles =>
        let '(tasks, lastModified) := scan_files taskFiles in
        if (0 <? List.length tasks)%nat then
          let sortedTasks := Array_sort by_id tasks in
          (taskLists ++ [{| listId := dname dir;
                            tasks := sortedTasks;
                            lastModified := lastModified |}],
           <[dname dir := {| cached_tasks := sortedTasks;
                             cached_lastModified := lastModified |}]> cache)
        else acc
    end.

(** [getTaskLists], with the cache it updates; [None] when it throws. *)
Definition getTaskLists (tree : tasks_dir) (cache : gmap string cached)
  : option (list ClaudeTaskList * gmap string cached) :=
  match tree with
  | NoTasksDir => Some ([], cache)
  | TasksDirError => None
  | TasksDir listDirs =>
      let '(taskLists, cache') := fold_left scan_list listDirs ([], cache) in
      Some (Array_sort (by_recency lastModified) taskLists, cache')
  end.

(** One turn of the loop of [getAllTaskListSummaries]. *)
Definition scan_summary (summaries : list TaskListSummary) (dir : dirent)
  : list TaskListSummary :=
  if skipped dir then summaries
  else
    let listPath := path_join TASKS_DIR (dname dir) in
    match entries dir with
    | None => summaries
    | Some taskFiles =>
        let '(tasks, lastModified) := scan_files taskFiles in
        if (0 <? List.length tasks)%nat then
          summaries ++ [{|
            sum_id := dname dir;
            sum_path := listPath;
            taskCount := List.length tasks;
            pendingCount := List.length (List.filter (status_is "pending") tasks);
            inProgressCount := List.length (List.filter (status_is "in_progress") tasks);
            completedCount := List.length (List.filter (status_is "completed") tasks);
            sum_lastModified := lastModified;
            hasPrompt := hasPromptFile dir |}]
        else summaries
    end.

Definition getAllTaskListSummaries (tree : tasks_dir) : option (list TaskListSummary) :=
  match tree with
  | NoTasksDir => Some []
  | TasksDirError => None
  | TasksDir listDirs =>
      Some (Array_sort (by_recency sum_lastModified)
              (fold_left scan_summary listDirs []))
  end.
End Scan.

(** ** The running process *)

(** A file written by [archiveTaskList]: its name is made of the list id
    and a clock reading, its content holds the id, a second clock reading
    and the tasks. *)
Record archive_file : Type := {
  archive_name : string * Z;
  archive_id : string;
  archivedAt : Z;
  archive_tasks : list json
}.

(** The mutable state of the process and the files it owns.
    [writeDebounceTimer] holds the time at which the pending timer is due,
    [archived] the files written under [ARCHIVE_DIR] (latest first),
    [dataFile] the content of [DATA_FILE], [passes] the number of runs of
    [writeFiles]. *)
Record state : Type := {
  currentConfig : MonitorConfig;
  configFile : stored;
  taskDataCache : gmap string cached;
  writeDebounceTimer : option Z;
  archived : list archive_file;
  dataFile : option TaskMonitorData;
  passes : nat
}.

Definition set_config (st : state) (c : MonitorConfig) : state :=
  {| currentConfig := c; configFile := configFile st;
     taskDataCache := taskDataCache st; writeDebounceTimer := writeDebounceTimer st;
     archived := archived st; dataFile := dataFile st; passes := passes st |}.

Definition set_configFile (st : state) (f : stored) : state :=
  {| currentConfig := currentConfig st; configFile := f;
     taskDataCache := taskDataCache st; writeDebounceTimer := writeDebounceTimer st;
     archived := archived st; dataFile := dataFile st; passes := passes st |}.

Definition set_cache (st : state) (m : gmap string cached) : state :=
  {| currentConfig := currentConfig st; configFile := configFile st;
     taskDataCache := m; writeDebounceTimer := writeDebounceTimer st;
     archived := archived st; dataFile := dataFile st; passes := passes st |}.

Definition set_timer (st : state) (t : option Z) : state :=
  {| currentConfig := currentConfig st; configFile := configFile st;
     taskDataCache := taskDataCache st; writeDebounceTimer := t;
     archived := archived st; dataFile := dataFile st; passes := passes st |}.

Definition add_archive (st : state) (a : archive_file) : state :=
  {| currentConfig := currentConfig st; configFile := configFile st;
     taskDataCache := taskDataCache st; writeDebounceTimer := writeDebounceTimer st;
     archived := a :: archived st; dataFile := dataFile st; passes := passes st |}.

Definition set_dataFile (st : state) (d : TaskMonitorData) : state :=
  {| currentConfig := currentConfig st; configFile := configFile st;
     taskDataCache := taskDataCache st; writeDebounceTimer := writeDebounceTimer st;
     archived := archived st; dataFile := Some d; passes := passes st |}.

Definition count_pass (st : state) : state :=
  {| currentConfig := currentConfig st; configFile := configFile st;
     taskDataCache := taskDataCache st; writeDebounceTimer := writeDebounceTimer st;
     archived := archived st; dataFile := dataFile st; passes := S (passes st) |}.

(** [archiveTaskList]; [clock] holds the two readings of [new Date()]. *)
Definition archiveTaskList (clock : Z * Z) (taskListId : string) (tasks : list json)
    (st : state) : state :=
  add_archive st {| archive_name := (taskListId, fst clock);
                    archive_id := taskListId;
                    archivedAt := snd clock;
                    archive_tasks := tasks |}.

(** [scheduleWriteFiles] at time [now]: the pending timer, if any, is
    cleared and a new one is due 300 ms later. *)
Definition scheduleWriteFiles (now : Z) (st : state) : state :=
  set_timer st (Some (now + 300)).

(** The part of a path before its last slash and the part after it. *)
Fixpoint rsplit (p : string) : option string * string :=
  match p with
  | EmptyString => (None, EmptyString)
  | String c p' =>
      let '(d, b) := rsplit p' in
      match d with
      | Some d' => (Some (String c d'), b)
      | None => if Ascii.eqb c "/"%char then (Some EmptyString, b) else (None, String c b)
      end
  end.

(** [path.dirname] and [path.basename] on a normalised path. *)
Definition dirname (p : string) : string :=
  match fst (rsplit p) with
  | None => "."
  | Some EmptyString => "/"
  | Some d => d
  end.

Definition basename (p : string) : string := snd (rsplit p).

Definition ignored_path (filePath : string) : bool :=
  negb (endsWith filePath ".json") || includes filePath ".archive".

(** The answer to POST /api/config. *)
Inductive response : Type :=
| Status400 (error : string)
| Status200 (config : MonitorConfig).

Section Process.
Context `{Builtins} (cwd homedir : string).

(** [writeFiles] on the tree [tree]; when a scan throws, the catch
    leaves the published files as they are. *)
Definition writeFiles (tree : tasks_dir) (st : state) : state :=
  let st := count_pass st in
  match getTaskLists tree (taskDataCache st) with
  | None => st
  | Some (taskLists, cache) =>
      let st := set_cache st cache in
      match getAllTaskListSummaries homedir tree with
      | None => st
      | Some availableLists =>
          let selectedListId :=
            match taskLists with
            | first :: _ => listId first
            | [] => ""
            end in
          set_dataFile st {| taskLists := taskLists;
                             availableLists := availableLists;
                             selectedListId := selectedListId;
                             templates := [];
                             data_projectDir := projectDir (currentConfig st) |}
      end
  end.

(** The callback of the debounce timer, run by the event loop at time
    [now]; nothing happens while no timer is due. *)
Definition timer_fires (now : Z) (tree : tasks_dir) (st : state) : state :=
  match writeDebounceTimer st with
  | Some due =>
      if (due <=? now)%Z then writeFiles tree (set_timer st None) else st
  | None => st
  end.

(** The watcher's "add" and "change" handlers. *)
Definition on_add (now : Z) (filePath : string) (st : state) : state :=
  if ignored_path filePath then st else scheduleWriteFiles now st.

Definition on_change (now : Z) (filePath : string) (st : state) : state :=
  if ignored_path filePath then st else scheduleWriteFiles now st.

(** The watcher's "unlink" handler. *)
Definition on_unlink (now : Z) (clock : Z * Z) (filePath : string) (st : state) : state :=
  if ignored_path filePath then st
  else
    let taskListId := basename (dirname filePath) in
    let st :=
      match taskDataCache st !! taskListId with
      | Some cachedData =>
          if (0 <? List.length (cached_tasks cachedData))%nat then
            let st := archiveTaskList clock taskListId (cached_tasks cachedData) st in
            set_cache st (delete taskListId (taskDataCache st))
          else st
      | None => st
      end in
    scheduleWriteFiles now st.

(** The handler of the watcher on the configuration file. *)
Definition on_config_change (now : Z) (st : state) : state :=
  scheduleWriteFiles now (set_config st (loadConfig cwd (configFile st))).

(** The handler of POST /api/config, [body] the request body. *)
Definition post_config (now : Z) (body : file_text) (st : state) : state * response :=
  match body with
  | NotJSON => (st, Status400 "Invalid JSON")
  | Doc input =>
      match validateConfig (currentConfig st) input with
      | Throw => (st, Status400 "Invalid JSON")
      | Reject error => (st, Status400 error)
      | Ok config =>
          let st := set_config st config in
          let st := set_configFile st (saveConfig (currentConfig st)) in
          let st := scheduleWriteFiles now st in
          (st, Status200 (currentConfig st))
      end
  end.

(** GET /api/config. *)
Definition get_config (st : state) : MonitorConfig := currentConfig st.

(** The start of [main]: load the configuration, create the file when it
    is missing, run the first pass. *)
Definition main (file : stored) (tree : tasks_dir) : state :=
  let config := loadConfig cwd file in
  let file := match file with Absent => saveConfig config | _ => file end in
  writeFiles tree {| currentConfig := config; configFile := file;
                     taskDataCache := ∅; writeDebounceTimer := None;
                     archived := []; dataFile := None; passes := 0 |}.
End Process.

(** ** The event loop *)

(** What the process reacts to: the three callbacks of the task watcher,
    the callback of the configuration watcher, a POST /api/config, and an
    edit of the configuration file by another program.  Each carries the
    time at which it is handled. *)
Inductive event : Type :=
| Add (now : Z) (filePath : string)
| Change (now : Z) (filePath : string)
| Unlink (now : Z) (clock : Z * Z) (filePath : string)
| ConfigChange (now : Z)
| Post (now : Z) (body : file_text)
| Edit (now : Z) (file : stored).

Definition time_of (e : event) : Z :=
  match e with
  | Add now _ | Change now _ | Unlink now _ _ | ConfigChange now
  | Post now _ | Edit now _ => now
  end.

Section Loop.
Context `{Builtins} (cwd homedir : string).

Definition step (e : event) (st : state) : state :=
  match e with
  | Add now filePath => on_add now filePath st
  | Change now filePath => on_change now filePath st
  | Unlink now clock filePath => on_unlink now clock filePath st
  | ConfigChange now => on_config_change cwd now st
  | Post now body => fst (post_config now body st)
  | Edit _ file => set_configFile st file
  end.

(** The states the process can be in. *)
Inductive reachable : state -> Prop :=
| reach_main file tree : reachable (main cwd homedir file tree)
| reach_step e st : reachable st -> reachable (step e st)
| reach_timer now tree st :
    reachable st -> reachable (timer_fires homedir now tree st).

(** [e] calls [scheduleWriteFiles] when handled in [st]. *)
Definition requests (e : event) (st : state) : bool :=
  match e with
  | Add _ filePath | Change _ filePath | Unlink _ _ filePath =>
      negb (ignored_path filePath)
  | ConfigChange _ => true
  | Post _ (Doc input) =>
      match validateConfig (currentConfig st) input with
      | Ok _ => true
      | _ => false
      end
  | Post _ NotJSON => false
  | Edit _ _ => false
  end.

(** Timers that fire on time: by the time [now], a timer that was due
    has run, on the tree as it was when the timer was due. *)
Definition elapse (tree_at : Z -> tasks_dir) (now : Z) (st : state) : state :=
  match writeDebounceTimer st with
  | Some due =>
      if (due <=? now)%Z then timer_fires homedir due (tree_at due) st else st
  | None => st
  end.

Definition deliver (tree_at : Z -> tasks_dir) (st : state) (e : event) : state :=
  step e (elapse tree_at (time_of e) st).

Definition run (tree_at : Z -> tasks_dir) (evs : list event) (st : state) : state :=
  fold_left (deliver tree_at) evs st.
End Loop.

(** ** The start of the process and the archive directory *)

(** [ARCHIVE_DIR]. *)
Definition ARCHIVE_DIR (homedir : string) : string :=
  path_join (TASKS_DIR homedir) ".archive".

Definition file_exists (f : stored) : bool :=
  match f with Absent => false | _ => true end.

(** [migrateOldConfig]: [old] is the file beside the program, [file] the
    configuration file; the result is the configuration file afterwards.
    A copy that fails is caught. *)
Definition migrateOldConfig (old file : stored) : stored :=
  if file_exists old && negb (file_exists file) then
    match old with
    | Text t => Text t
    | _ => file
    end
  else file.

(** [main] from the migration on. *)
Definition start `{Builtins} (cwd homedir : string) (old file : stored)
    (tree : tasks_dir) : state :=
  main cwd homedir (migrateOldConfig old file) tree.

(** ** The dashboard script

    The functions of the script that the generated page embeds ([JS]):
    they run in the browser, on the snapshot and the configuration the
    server publishes.  A string is its sequence of code units. *)

(** [a === b] on numbers. *)
Definition num_eq (a b : number) : bool :=
  match a, b with
  | NegInf, NegInf | PosInf, PosInf => true
  | Fin x, Fin y => Qeq_bool x y
  | _, _ => false
  end.

(** The built-in functions of the browser left abstract. *)
Class Browser : Type := {
  (** [parseInt(s, 10)]: NaN for the empty string; when it is finite it
      is an integer. *)
  parseInt10 : string -> number;
  parseInt10_empty : parseInt10 EmptyString = NaN;
  parseInt10_integer s :
    isFinite (parseInt10 s) = true -> isInteger (parseInt10 s) = true;
  (** [a + b] on numbers, the sum of two doubles: it is the exact sum
      where the operands and the sum are integers of magnitude at most
      2^53; elsewhere it is rounded, and nothing is said of it. *)
  plus : number -> number -> number;
  plus_exact a b :
    (Z.abs a <= 2 ^ 53)%Z -> (Z.abs b <= 2 ^ 53)%Z -> (Z.abs (a + b) <= 2 ^ 53)%Z ->
    plus (num_of_Z a) (num_of_Z b) = num_of_Z (a + b);
  (** [String(n)]: 0 is written 0, and a natural number up to 2^53 in
      decimal digits, which [parseInt] reads back. *)
  NumberToString : number -> string;
  NumberToString_0 : NumberToString (num_of_Z 0) = "0";
  parseInt10_NumberToString k :
    (0 <= k <= 2 ^ 53)%Z -> parseInt10 (NumberToString (num_of_Z k)) = num_of_Z k;
  (** [decodeURIComponent(s)], [None] when it throws. *)
  decodeURIComponent : string -> option string
}.

(** [str.slice(0, end)]. *)
Definition slice0 (str : string) (e : Z) : string :=
  let len := Z.of_nat (String.length str) in
  let k := if (e <? 0)%Z then Z.max (len + e) 0 else Z.min e len in
  substring 0 (Z.to_nat k) str.

(** [truncate], on a string. *)
Definition truncate (str : string) (maxLen : Z) : string :=
  if (Z.of_nat (String.length str) <=? maxLen)%Z then str
  else (slice0 str (maxLen - 3) ++ "...")%string.

(** [str.replace(/c/g, rep)] for a character [c]. *)
Fixpoint replace_all (c : ascii) (rep : string) (str : string) : string :=
  match str with
  | EmptyString => EmptyString
  | String x str' =>
      ((if Ascii.eqb x c then rep else String x EmptyString)
       ++ replace_all c rep str')%string
  end.

(** [escapeHtml], on a string. *)
Definition escapeHtml (str : string) : string :=
  replace_all ">" "&gt;" (replace_all "<" "&lt;" (replace_all "&" "&amp;" str)).

(** [a === b] for a property [a], which may be undefined, and a JSON value
    [b] read elsewhere: two arrays or two objects are never the same
    object. *)
Definition strict_eq (a : option json) (b : json) : bool :=
  match a, b with
  | Some JNull, JNull => true
  | Some (JBool x), JBool y => Bool.eqb x y
  | Some (JNum x), JNum y => num_eq x y
  | Some (JStr x), JStr y => String.eqb x y
  | _, _ => false
  end.

(** An element of [blockers]. *)
Record blocker : Type := {
  blocker_id : json;
  done : bool;
  blocker_subject : json
}.

Record BlockerStatus : Type := {
  isBlocked : bool;
  blockers : list blocker;
  ready : bool
}.

(** [allTasks.find(t => t.id === id)]. *)
Definition find_task (allTasks : list json) (id : json) : option json :=
  List.find (fun t => strict_eq (prop "id" t) id) allTasks.

(** The body of the [map] in [getBlockerStatus]. *)
Definition make_blocker (allTasks : list json) (id : json) : blocker :=
  let blocker := find_task allTasks id in
  {| blocker_id := id;
     done := match blocker with
             | Some b => status_is "completed" b
             | None => false
             end;
     blocker_subject :=
       match blocker with
       | Some b => match prop "subject" b with
                   | Some v => if truthy v then v else JStr "Unknown"
                   | None => JStr "Unknown"
                   end
       | None => JStr "Unknown"
       end |}.

Definition not_blocked : BlockerStatus :=
  {| isBlocked := false; blockers := []; ready := false |}.

(** [getBlockerStatus]; [None] when it throws a TypeError, which it does
    when [blockedBy] is truthy, is no array and has no [length] equal
    to 0. *)
Definition getBlockerStatus (task : json) (allTasks : list json)
  : option BlockerStatus :=
  match prop "blockedBy" task with
  | None => Some not_blocked
  | Some blockedBy =>
      if negb (truthy blockedBy) then Some not_blocked
      else
        match blockedBy with
        | JArr items =>
            if Nat.eqb (List.length items) 0 then Some not_blocked
            else
              let blockers := List.map (make_blocker allTasks) items in
              let allDone := forallb done blockers in
              Some {| isBlocked := negb allDone;
                      blockers := blockers;
                      ready := allDone && (0 <? List.length blockers)%nat |}
        | JObj ps =>
            match assoc "length" ps with
            | Some (JNum n) =>
                if num_eq n (num_of_Z 0) then Some not_blocked else None
            | _ => None
            end
        | _ => None
        end
  end.

(** [isAvailable] in [render]:
    [task.status === 'pending' && !blockerStatus.isBlocked]. *)
Definition isAvailable (task : json) (blockerStatus : BlockerStatus) : bool :=
  status_is "pending" task && negb (isBlocked blockerStatus).

(** The loop of [render] that counts the available tasks of a list;
    [None] when [getBlockerStatus] throws. *)
Fixpoint count_available (allTasks : list json) (tasks : list json) (available : nat)
  : option nat :=
  match tasks with
  | [] => Some available
  | task :: tasks' =>
      if status_is "pending" task then
        match getBlockerStatus task allTasks with
        | Some blockerStatus =>
            count_available allTasks tasks'
              (if negb (isBlocked blockerStatus) then S available else available)
        | None => None
        end
      else count_available allTasks tasks' available
  end.

(** The lists [render] shows: the lists with the selected id, the first
    list when there is none. *)
Definition shown_lists (selectedId : string) (TASK_DATA : list ClaudeTaskList)
  : list ClaudeTaskList :=
  let taskLists := List.filter (fun l => String.eqb (listId l) selectedId) TASK_DATA in
  match taskLists, TASK_DATA with
  | [], first :: _ => [first]
  | _, _ => taskLists
  end.

(** [s.split(',')]. *)
Fixpoint split_commas (s : string) : list string :=
  match s with
  | EmptyString => [EmptyString]
  | String c s' =>
      if Ascii.eqb c "," then EmptyString :: split_commas s'
      else match split_commas s' with
           | piece :: pieces => String c piece :: pieces
           | [] => [String c EmptyString]
           end
  end.

(** The state of the script: its variables [AGENT_NAMES] and
    [pollInterval] (here [polling]), and the local storage. *)
Record page : Type := {
  AGENT_NAMES : list json;
  polling : json;
  localStorage : gmap string string
}.

(** [localStorage.getItem(k) || '0']. *)
Definition getItem_or_0 (k : string) (p : page) : string :=
  match localStorage p !! k with
  | Some (String c s) => String c s
  | _ => "0"
  end.

(** [AGENT_NAMES[count]]: an element for an integer index inside the
    array, [undefined] otherwise. *)
Definition element_at (items : list json) (count : number) : option json :=
  match count with
  | Fin q =>
      if isInteger count && Qle_bool 0 q then nth_error items (Z.to_nat (Qfloor q))
      else None
  | _ => None
  end.

Section Dashboard.
Context `{Builtins} `{Browser}.

(** [getSelectedListId]: [hash] is [location.hash], [stored] the item
    [selectedTaskList] of the local storage; [None] when decoding the
    hash throws. *)
Definition getSelectedListId (hash : string) (stored : option string)
    (TASK_DATA : list ClaudeTaskList) : option string :=
  if (1 <? String.length hash)%nat then
    decodeURIComponent (substring 1 (String.length hash - 1) hash)
  else
    match stored with
    | Some (String c s) => Some (String c s)
    | _ => Some match TASK_DATA with
                | first :: _ => listId first
                | [] => EmptyString
                end
    end.

(** [getNextAgentName]: an element of [AGENT_NAMES], which may be
    [undefined], or the string ['agent-' + (count + 1)]. *)
Definition getNextAgentName (p : page) : option json :=
  let count := parseInt10 (getItem_or_0 "agentCount" p) in
  if num_lt count (num_of_Z (Z.of_nat (List.length (AGENT_NAMES p))))
  then element_at (AGENT_NAMES p) count
  else Some (JStr ("agent-" ++ NumberToString (plus count (num_of_Z 1)))).

Definition setItem (k v : string) (p : page) : page :=
  {| AGENT_NAMES := AGENT_NAMES p;
     polling := polling p;
     localStorage := <[k := v]> (localStorage p) |}.

(** [incrementAgentCount]. *)
Definition incrementAgentCount (p : page) : page :=
  let count := parseInt10 (getItem_or_0 "agentCount" p) in
  setItem "agentCount" (NumberToString (plus count (num_of_Z 1))) p.

(** [resetAgentCount], without the rendering. *)
Definition resetAgentCount (p : page) : page := setItem "agentCount" "0" p.

(** [loadSettings] on the answer of GET /api/config: [None] when the
    request fails or the answer is not JSON.  A property read on [null]
    throws, and so does the comparison of a [pollInterval] whose
    conversion throws, after the names are set; the catch swallows
    both. *)
Definition loadSettings (answer : option json) (p : page) : page :=
  match answer with
  | None | Some JNull => p
  | Some config =>
      let names :=
        match prop "agentNames" config with
        | Some (JArr (first :: rest)) => first :: rest
        | _ => AGENT_NAMES p
        end in
      let interval :=
        match prop "pollInterval" config with
        | Some v =>
            if truthy v then
              match Number v with
              | Some n =>
                  if num_ge n (num_of_Z 500) && num_le n (num_of_Z 60000)
                  then v else polling p
              | None => polling p
              end
            else polling p
        | None => polling p
        end in
      {| AGENT_NAMES := names; polling := interval; localStorage := localStorage p |}
  end.

(** The names [saveSettings] sends: the pieces between the commas,
    trimmed, without the empty ones. *)
Definition form_names (agentNamesRaw : string) : list string :=
  List.filter (fun s => negb (str_empty s))
    (List.map trim (split_commas agentNamesRaw)).

(** The body [saveSettings] posts, as the server parses it: the three
    fields of the form, that is the values of the inputs
    [settings-projectDir], [settings-pollInterval] and
    [settings-agentNames]. *)
Definition saveSettings_body (projectDirRaw pollIntervalRaw agentNamesRaw : string)
  : json :=
  JObj [("projectDir", JStr (trim projectDirRaw));
        ("pollInterval", json_of_number (parseInt10 pollIntervalRaw));
        ("agentNames", JArr (List.map JStr (form_names agentNamesRaw)))].

(** What [saveSettings] does with the answer to an accepted request, the
    saved configuration [result]: its [agentNames] is an array, which is
    truthy. *)
Definition apply_saved (result : MonitorConfig) (p : page) : page :=
  {| AGENT_NAMES := List.map JStr (agentNames result);
     polling := if truthy (json_of_number (pollInterval result))
                then json_of_number (pollInterval result) else polling p;
     localStorage := <["agentCount" := "0"]> (localStorage p) |}.

(** [saveSettings] against the server: the request, and what the script
    does with the answer; an answer that is not ok leaves the page as it
    is. *)
Definition saveSettings (now : Z)
    (projectDirRaw pollIntervalRaw agentNamesRaw : string)
    (st : state) (p : page) : state * page :=
  let body := saveSettings_body projectDirRaw pollIntervalRaw agentNamesRaw in
  let '(st', answer) := post_config now (Doc body) st in
  match answer with
  | Status200 result => (st', apply_saved result p)
  | Status400 _ => (st', p)
  end.
End Dashboard.

(** The number of an integer is an integer. *)
Lemma isInteger_num_of_Z z : isInteger (num_of_Z z) = true.
Proof.
  unfold isInteger, num_of_Z, inject_Z, Qred.
  pose proof (Z.ggcd_correct_divisors z 1) as Hdiv.
  pose proof (Z.ggcd_gcd z 1) as Hgcd.
  destruct (Z.ggcd z 1) as [g [a b]]. simpl in *.
  rewrite Z.gcd_1_r in Hgcd. subst g. destruct Hdiv as [_ Hb].
  assert (b = 1%Z) as -> by lia. reflexivity.
Qed.

(** ** Built-ins for the examples

    These agree with the ECMAScript functions on the values the examples
    use: ASCII strings made of blanks, a sign and decimal digits, integers
    below 10^21, arrays of strings. *)
Module Sample.

Definition is_space (c : ascii) : bool :=
  let n := nat_of_ascii c in
  ((9 <=? n) && (n <=? 13))%nat || Nat.eqb n 32.

Fixpoint skip_spaces (s : string) : string :=
  match s with
  | String c s' => if is_space c then skip_spaces s' else s
  | EmptyString => s
  end.

Definition digit (c : ascii) : option Z :=
  let n := nat_of_ascii c in
  if ((48 <=? n) && (n <=? 57))%nat then Some (Z.of_nat (n - 48)) else None.

(** The value of the longest prefix of digits, and what follows it. *)
Fixpoint digits (acc : option Z) (s : string) : option Z * string :=
  match s with
  | String c s' =>
      match digit c with
      | Some d => digits (Some (10 * default 0 acc + d)) s'
      | None => (acc, s)
      end
  | EmptyString => (acc, s)
  end.

Definition signed (s : string) : bool * string :=
  match s with
  | String "-" s' => (true, s')
  | String "+" s' => (false, s')
  | _ => (false, s)
  end.

Definition parseInt_string (s : string) : number :=
  let '(neg, s) := signed (skip_spaces s) in
  match fst (digits None s) with
  | Some v => num_of_Z (if neg : bool then - v else v)
  | None => NaN
  end.

Definition trim_string (s : string) : string :=
  String.rev (skip_spaces (String.rev (skip_spaces s))).

Definition number_of_string (s : string) : number :=
  let t := trim_string s in
  if str_empty t then num_of_Z 0
  else
    let '(neg, t) := signed t in
    match digits None t with
    | (Some v, EmptyString) => num_of_Z (if neg : bool then - v else v)
    | _ => NaN
    end.

(** [String(n)] for an integer [n]; the fraction of another number is
    cut. *)
Definition string_of_number (n : number) : string :=
  match n with
  | NaN => "NaN"
  | PosInf => "Infinity"
  | NegInf => "-Infinity"
  | Fin q => NilEmpty.string_of_int (Z.to_int (Qfloor q))
  end.

(** The pieces of [join], when none of them throws. *)
Fixpoint joined (pieces : list (option string)) : option string :=
  match pieces with
  | [] => Some EmptyString
  | [piece] => piece
  | piece :: pieces' =>
      match piece, joined pieces' with
      | Some a, Some b => Some (a ++ "," ++ b)%string
      | _, _ => None
      end
  end.

(** [String(v)]: an array joins its elements, [null] counting as the
    empty string; an object is [[object Object]] unless it holds a
    [toString] of its own, which after [JSON.parse] is no function. *)
Fixpoint string_of_json (v : json) : option string :=
  match v with
  | JNull => Some "null"
  | JBool b => Some (if b then "true" else "false")
  | JNum n => Some (string_of_number n)
  | JStr s => Some s
  | JArr items =>
      joined (List.map (fun e => match e with
                                 | JNull => Some EmptyString
                                 | _ => string_of_json e
                                 end) items)
  | JObj ps =>
      match assoc "toString" ps with
      | Some _ => None
      | None => Some "[object Object]"
      end
  end.

#[export] Instance builtins : Builtins := {|
  parseInt x :=
    match x with
    | Some (JStr s) => parseInt_string s
    | Some (JNum n) => if isInteger n then n else NaN
    | _ => NaN
    end;
  StringToNumber := number_of_string;
  ToPrimitive := string_of_json;
  trim := trim_string;
  trim_empty := eq_refl
|}.

(** The exact sum, which is the sum of doubles on the integers up to
    2^53. *)
Definition exact_sum (a b : number) : number :=
  match a, b with
  | NaN, _ | _, NaN => NaN
  | PosInf, NegInf | NegInf, PosInf => NaN
  | PosInf, _ | _, PosInf => PosInf
  | NegInf, _ | _, NegInf => NegInf
  | Fin x, Fin y => Fin (Qred (x + y))
  end.

Lemma Qred_inject_Z z : Qred (inject_Z z) = inject_Z z.
Proof.
  unfold inject_Z, Qred.
  pose proof (Z.ggcd_correct_divisors z 1) as Hdiv.
  pose proof (Z.ggcd_gcd z 1) as Hgcd.
  destruct (Z.ggcd z 1) as [g [a b]]. simpl in *.
  rewrite Z.gcd_1_r in Hgcd. subst g. destruct Hdiv as [Ha Hb].
  assert (b = 1%Z) as -> by lia. assert (a = z) as -> by lia. reflexivity.
Qed.

Lemma exact_sum_of_Z a b : exact_sum (num_of_Z a) (num_of_Z b) = num_of_Z (a + b).
Proof.
  unfold exact_sum, num_of_Z. f_equal. rewrite <- (Qred_inject_Z (a + b)).
  apply Qred_complete. now rewrite inject_Z_plus.
Qed.

Lemma parseInt_string_integer s :
  isFinite (parseInt_string s) = true -> isInteger (parseInt_string s) = true.
Proof.
  unfold parseInt_string. destruct (signed (skip_spaces s)) as [neg t].
  destruct (fst (digits None t)); [|discriminate].
  intros _. apply isInteger_num_of_Z.
Qed.

Lemma digits_string_of_uint d acc :
  digits (Some (Z.pos acc)) (NilEmpty.string_of_uint d)
  = (Some (Z.pos (Pos.of_uint_acc d acc)), EmptyString).
Proof.
  revert acc. induction d; intros acc; simpl; [reflexivity|..];
    rewrite <- IHd; do 2 f_equal; unfold digit; simpl; lia.
Qed.

Lemma digits_of_uint d : forall p acc,
  Pos.of_uint d = N.pos p -> default 0%Z acc = 0%Z ->
  fst (digits acc (NilEmpty.string_of_uint d)) = Some (Z.pos p).
Proof.
  induction d as [|d IH|d _|d _|d _|d _|d _|d _|d _|d _|d _];
    intros p acc Hp Hacc; simpl in Hp; [discriminate|..];
    cbn [NilEmpty.string_of_uint digits]; unfold digit; simpl; rewrite Hacc;
    try (injection Hp as <-;
         match goal with
         | |- context [Some (10 * 0 + Z.of_nat ?n)%Z] =>
             let v := eval vm_compute in (10 * 0 + Z.of_nat n)%Z in
             change (10 * 0 + Z.of_nat n)%Z with v
         end;
         rewrite digits_string_of_uint; reflexivity).
  apply IH; [exact Hp|reflexivity].
Qed.

Lemma digits_to_uint p :
  fst (digits None (NilEmpty.string_of_uint (Pos.to_uint p))) = Some (Z.pos p).
Proof.
  apply digits_of_uint; [apply DecimalPos.Unsigned.of_to|reflexivity].
Qed.

Lemma parseInt_string_of_number k :
  (0 <= k)%Z -> parseInt_string (string_of_number (num_of_Z k)) = num_of_Z k.
Proof.
  intros Hk. unfold string_of_number, num_of_Z. rewrite Qfloor_Z.
  destruct k as [|p|p]; [reflexivity| |lia].
  simpl Z.to_int. cbn [NilEmpty.string_of_int].
  pose proof (digits_to_uint p) as Hd.
  pose proof (DecimalPos.Unsigned.to_uint_nonnil p) as Hnil.
  unfold parseInt_string.
  destruct (Pos.to_uint p); [congruence|..];
    cbn [NilEmpty.string_of_uint] in *; simpl skip_spaces; simpl signed;
    cbv iota beta; rewrite Hd; reflexivity.
Qed.

(** A string without a percent sign decodes to itself; the escapes are
    left out. *)
#[export] Instance browser : Browser := {|
  parseInt10 := parseInt_string;
  parseInt10_empty := eq_refl;
  parseInt10_integer := parseInt_string_integer;
  plus := exact_sum;
  plus_exact a b _ _ _ := exact_sum_of_Z a b;
  NumberToString := string_of_number;
  NumberToString_0 := eq_refl;
  parseInt10_NumberToString k Hk := parseInt_string_of_number k (proj1 Hk);
  decodeURIComponent s := if includes s "%" then None else Some s
|}.

End Sample.

(** * The vocabulary of the properties *)

Section Vocabulary.
Context `{Builtins} (cwd homedir : string).

(** A task file is an entry whose name ends in [.json]; it is malformed
    when [readTaskFile] yields a value the loop drops. *)
Definition is_task_file (f : file) : bool := endsWith (fname f) ".json".

Definition malformed (f : file) : bool := negb (truthy (readTaskFile f)).

Definition accepted (f : file) : bool := is_task_file f && negb (malformed f).


(** The tasks of a directory in scan order. *)
Definition scan_order (taskFiles : list file) : list json :=
  List.map readTaskFile (List.filter accepted taskFiles).

(** What the scan keeps of a list directory: its tasks in scan order and
    the latest modification time, when there is a task. *)
Definition scanned (dir : dirent) : option (list json * Z) :=
  if skipped dir then None
  else
    match entries dir with
    | None => None
    | Some taskFiles =>
        let r := scan_files taskFiles in
        if (0 <? List.length (fst r))%nat then Some r else None
    end.

Definition kept (listDirs : list dirent) : list (dirent * (list json * Z)) :=
  flat_map (fun dir => match scanned dir with
                       | Some r => [(dir, r)]
                       | None => []
                       end) listDirs.

(** The task list and the summary made of a kept directory. *)
Definition to_list (k : dirent * (list json * Z)) : ClaudeTaskList :=
  {| listId := dname (fst k);
     tasks := Array_sort by_id (fst (snd k));
     lastModified := snd (snd k) |}.

Definition to_summary (k : dirent * (list json * Z)) : TaskListSummary :=
  let tasks := fst (snd k) in
  {| sum_id := dname (fst k);
     sum_path := path_join (TASKS_DIR homedir) (dname (fst k));
     taskCount := List.length tasks;
     pendingCount := List.length (List.filter (status_is "pending") tasks);
     inProgressCount := List.length (List.filter (status_is "in_progress") tasks);
     completedCount := List.length (List.filter (status_is "completed") tasks);
     sum_lastModified := snd (snd k);
     hasPrompt := hasPromptFile (fst k) |}.

(** The snapshot made of the kept directories. *)
Definition snapshot_of (dir : string) (ks : list (dirent * (list json * Z)))
  : TaskMonitorData :=
  let taskLists := Array_sort (by_recency lastModified) (List.map to_list ks) in
  {| taskLists := taskLists;
     availableLists := Array_sort (by_recency sum_lastModified) (List.map to_summary ks);
     selectedListId := match taskLists with
                       | first :: _ => listId first
                       | [] => EmptyString
                       end;
     templates := [];
     data_projectDir := dir |}.

(** What a pass on [tree] publishes; nothing when the scan throws. *)
Definition pass_output (tree : tasks_dir) (dir : string) : option TaskMonitorData :=
  match tree with
  | NoTasksDir => Some (snapshot_of dir [])
  | TasksDirError => None
  | TasksDir listDirs => Some (snapshot_of dir (kept listDirs))
  end.


(** The numeric id of a task. *)
Definition numeric_id (t : json) : number := parseInt (prop "id" t).

(** The tasks whose id parses to a number are in ascending order of that
    number. *)
Definition ascending_ids (ts : list json) : Prop :=
  StronglySorted
    (fun a b => isNaN (numeric_id a) = false -> isNaN (numeric_id b) = false ->
                num_le (numeric_id a) (numeric_id b) = true) ts.

(** The id of [t] parses to a number equal to [n]. *)
Definition same_number (n : number) (t : json) : bool :=
  num_le n (numeric_id t) && num_le (numeric_id t) n.

(** The id of [t] is the string [s]. *)
Definition has_raw_id (s : string) (t : json) : bool :=
  match prop "id" t with
  | Some (JStr x) => String.eqb x s
  | _ => false
  end.

(** A number between 500 and 60000. *)
Definition in_range (n : number) : bool :=
  num_ge n (num_of_Z 500) && num_le n (num_of_Z 60000).

Definition config_fields : list string := ["projectDir"; "pollInterval"; "agentNames"].

(** The validation rules: [projectDir] a string that is not blank,
    [pollInterval] a value whose number is between 500 and 60000,
    [agentNames] a non-empty array of strings that are not blank. *)
Definition valid_projectDir (v : json) : bool := negb (is_blank v).

Definition valid_pollInterval (v : json) : bool :=
  match Number v with
  | Some n => in_range n
  | None => false
  end.

Definition valid_agentNames (v : json) : bool :=
  match v with
  | JArr items => negb (Nat.eqb (List.length items) 0)
                  && forallb (fun n => negb (is_blank n)) items
  | _ => false
  end.

Definition field_valid (k : string) (v : json) : bool :=
  if String.eqb k "projectDir" then valid_projectDir v
  else if String.eqb k "pollInterval" then valid_pollInterval v
  else if String.eqb k "agentNames" then valid_agentNames v
  else true.

(** The update holds the field [k] with a value that breaks its rule. *)
Definition invalid_field (input : json) (k : string) : Prop :=
  In k config_fields /\ exists v, prop k input = Some v /\ field_valid k v = false.

(** The update holds a [pollInterval] whose conversion to a number
    throws. *)
Definition conversion_throws (input : json) : Prop :=
  exists v, prop "pollInterval" input = Some v /\ Number v = None.

(** The error message [e] is about the field [k]. *)
Definition error_names (e k : string) : Prop :=
  (e = err_projectDir /\ k = "projectDir")
  \/ (e = err_pollInterval /\ k = "pollInterval")
  \/ ((e = err_agentNames \/ e = err_agentName) /\ k = "agentNames").

(** The value a field of the update gives to the configuration. *)
Definition new_projectDir (input : json) (old : string) : string :=
  match prop "projectDir" input with
  | Some v => trim (string_of v)
  | None => old
  end.

Definition new_pollInterval (input : json) (old : number) : number :=
  match prop "pollInterval" input with
  | Some v => default old (Number v)
  | None => old
  end.

Definition new_agentNames (input : json) (old : list string) : list string :=
  match prop "agentNames" input with
  | Some (JArr items) => List.map (fun n => trim (string_of n)) items
  | _ => old
  end.

(** The configuration an accepted update leads to. *)
Definition updated (input : json) (old : MonitorConfig) : MonitorConfig :=
  {| projectDir := new_projectDir input (projectDir old);
     pollInterval := new_pollInterval input (pollInterval old);
     agentNames := new_agentNames input (agentNames old) |}.

Definition all_fields_valid (input : json) : Prop :=
  forall k v, In k config_fields -> prop k input = Some v -> field_valid k v = true.

(** The fields as [loadConfig] accepts them. *)
Definition loadable (c : MonitorConfig) : Prop :=
  str_empty (projectDir c) = false
  /\ in_range (pollInterval c) = true
  /\ agentNames c <> []
  /\ forallb (fun n => negb (str_empty n)) (agentNames c) = true.

(** The time of the last event of [evs], [t] when there is none. *)
Fixpoint last_time (t : Z) (evs : list event) : Z :=
  match evs with
  | [] => t
  | e :: evs' => last_time (time_of e) evs'
  end.

(** A burst after a request at time [t]: each event is a regeneration
    request handled less than 300 ms after the one before it. *)
Fixpoint is_burst (tree_at : Z -> tasks_dir) (t : Z) (evs : list event) (st : state)
  : Prop :=
  match evs with
  | [] => True
  | e :: evs' =>
      (t <= time_of e < t + 300)%Z
      /\ requests e (elapse homedir tree_at (time_of e) st) = true
      /\ is_burst tree_at (time_of e) evs' (deliver cwd homedir tree_at st e)
  end.

(** The cache entry made of a kept directory. *)
Definition entry_of (k : dirent * (list json * Z)) : cached :=
  {| cached_tasks := Array_sort by_id (fst (snd k));
     cached_lastModified := snd (snd k) |}.

Definition cache_insert (cache : gmap string cached) (k : dirent * (list json * Z))
  : gmap string cached :=
  <[dname (fst k) := entry_of k]> cache.
(** A configuration that [loadConfig], run in the directory [cwd], takes
    as it is: fields as [loadConfig] accepts them, or a [projectDir] that
    is the default one. *)
Definition stable (c : MonitorConfig) : Prop :=
  (str_empty (projectDir c) = false \/ projectDir c = cwd)
  /\ in_range (pollInterval c) = true
  /\ agentNames c <> []
  /\ forallb (fun n => negb (str_empty n)) (agentNames c) = true.

(** The states in which the watcher of the configuration file has
    reported every edit of the file: an edit is followed at once by the
    callback of the watcher. *)
Inductive settled : state -> Prop :=
| settled_start old file tree : settled (start cwd homedir old file tree)
| settled_step e st :
    settled st -> (forall now f, e <> Edit now f) -> settled (step cwd e st)
| settled_edit now now' f st :
    settled st -> settled (step cwd (ConfigChange now') (step cwd (Edit now f) st))
| settled_timer now tree st :
    settled st -> settled (timer_fires homedir now tree st).

(** *** The dashboard *)

(** The code units of a string. *)
Fixpoint chars (s : string) : list ascii :=
  match s with
  | EmptyString => []
  | String c s' => c :: chars s'
  end.

(** The entity that stands for a character in HTML text. *)
Definition escape_char (c : ascii) : string :=
  if Ascii.eqb c "&" then "&amp;"
  else if Ascii.eqb c "<" then "&lt;"
  else if Ascii.eqb c ">" then "&gt;"
  else String c EmptyString.

Fixpoint escape_each (s : string) : string :=
  match s with
  | EmptyString => EmptyString
  | String c s' => (escape_char c ++ escape_each s')%string
  end.

(** The first task with the id [id] exists and is completed. *)
Definition completed_blocker (allTasks : list json) (id : json) : Prop :=
  exists b, find_task allTasks id = Some b /\ status_is "completed" b = true.

(** The tasks for which [render] computes [isAvailable] as true: the
    pending tasks whose blockers [getBlockerStatus] can read and finds
    all done. *)
Definition available_task (allTasks : list json) (task : json) : bool :=
  match getBlockerStatus task allTasks with
  | Some blockerStatus => isAvailable task blockerStatus
  | None => false
  end.

(** The page after [k] launches. *)
Definition launches `{Browser} (k : nat) (p : page) : page :=
  Nat.iter k incrementAgentCount p.

End Vocabulary.

(** * The data of the scenarios *)

Definition task (id subject status : string) : json :=
  JObj [("id", JStr id); ("subject", JStr subject); ("description", JStr "");
        ("status", JStr status); ("blocks", JArr []); ("blockedBy", JArr [])].

Definition task_file (name : string) (j : json) (t : Z) : file :=
  {| fname := name; fcontent := Some (Doc j); mtime := t |}.

Definition list_dir (name : string) (taskFiles : list file) : dirent :=
  {| dname := name; isDirectory := true; hasPromptFile := false;
     entries := Some taskFiles |}.

(** Two lists: [proj-a], touched at 1000, and [proj-b], touched at 2000. *)
Definition proj_a : dirent :=
  list_dir "proj-a" [task_file "1.json" (task "1" "write the parser" "pending") 1000;
                     task_file "2.json" (task "2" "set up the build" "completed") 900].

Definition proj_b : dirent :=
  list_dir "proj-b" [task_file "1.json" (task "1" "run the tests" "in_progress") 2000].

Definition tree_ab : tasks_dir := TasksDir [proj_a; proj_b].

Definition st_ab : state := main (H := Sample.builtins) "/work" "/home/u" Absent tree_ab.






(** Three task files in scan order: id 10, no id, id 7. *)
Definition unordered : dirent :=
  list_dir "proj"
    [task_file "10.json" (task "10" "deploy" "pending") 5000;
     task_file "5.json" (JObj [("subject", JStr "a task without id")]) 5000;
     task_file "7.json" (task "7" "review" "pending") 5000].

Definition st_unordered : state :=
  main (H := Sample.builtins) "/work" "/home/u" Absent (TasksDir [unordered]).

(** What the first pass caches for [proj-b]. *)
Definition cached_b : cached :=
  {| cached_tasks := [task "1" "run the tests" "in_progress"];
     cached_lastModified := 2000 |}.





Definition some_config : MonitorConfig :=
  {| projectDir := "/srv/app"; pollInterval := num_of_Z 1500; agentNames := ["a"; "b"] |}.

(** The state after a write of [pollInterval: 1000.5]. *)
Definition st_half : state :=
  step (H := Sample.builtins) "/work"
    (Post 9000 (Doc (JObj [("pollInterval", JNum (Fin (2001 # 2)))]))) st_ab.

(** Three requests, 100, 250 and 250 ms apart. *)

Definition burst : list event :=
  [Change 10100 "/home/u/.claude/tasks/proj-a/1.json";
   Unlink 10350 (10351, 10352) "/home/u/.claude/tasks/proj-a/2.json";
   ConfigChange 10600].

(** Two lists touched at the same time, [zeta] listed before [alpha]. *)
Definition twins : list dirent :=
  [list_dir "zeta" [task_file "1.json" (task "1" "measure" "pending") 8000];
   list_dir "alpha" [task_file "1.json" (task "1" "cut" "pending") 8000]].

(** A list directory whose name holds [.archive]. *)
Definition old_archive : dirent :=
  list_dir "old.archive" [task_file "1.json" (task "1" "restore" "pending") 7000].

(** The state with a pass requested at 10100. *)
Definition st_pending : state :=
  step (H := Sample.builtins) "/work"
    (Change 10100 "/home/u/.claude/tasks/proj-a/1.json") st_ab.

(** A task with blockers. *)
Definition task_after (id subject status : string) (blockedBy : list string) : json :=
  JObj [("id", JStr id); ("subject", JStr subject); ("status", JStr status);
        ("blockedBy", JArr (List.map JStr blockedBy))].

(** A design that is done, a build that waits for it, and a release that
    waits for the build and for a task 9 that does not exist. *)
Definition plan : list json :=
  [task "1" "design" "completed";
   task_after "2" "build" "pending" ["1"];
   task_after "3" "release" "pending" ["2"; "9"]].

(** A page with two agent names and an empty local storage. *)
Definition fresh_page : page :=
  {| AGENT_NAMES := [JStr "alpha"; JStr "beta"];
     polling := JNum (num_of_Z 2000);
     localStorage := ∅ |}.

(** * Properties *)

(** ** Numbers *)

Lemma num_lt_irrefl n : num_lt n n = false.
Proof.
  destruct n as [| | |q]; simpl; try reflexivity.
  apply negb_false_iff, Qle_bool_iff, Qle_refl.
Qed.

Lemma num_le_lt_false a b : num_le a b = true -> num_lt b a = false.
Proof.
  destruct a as [| | |x], b as [| | |y]; simpl; try reflexivity; try discriminate.
  intros ->. reflexivity.
Qed.

Lemma num_lt_asym a b : num_lt a b = true -> num_lt b a = false.
Proof.
  destruct a as [| | |x], b as [| | |y]; simpl; try reflexivity; try discriminate.
  rewrite !negb_true_iff, negb_false_iff. intros Hxy.
  apply Qle_bool_iff. apply Qnot_lt_le. intros Hlt.
  apply Qlt_le_weak in Hlt. apply Qle_bool_iff in Hlt. congruence.
Qed.

Lemma num_le_trans a b c : num_le a b = true -> num_le b c = true -> num_le a c = true.
Proof.
  destruct a as [| | |x], b as [| | |y], c as [| | |z]; simpl;
    try reflexivity; try discriminate.
  rewrite !Qle_bool_iff. apply Qle_trans.
Qed.

Lemma num_le_total a b :
  isNaN a = false -> isNaN b = false -> num_lt b a = false -> num_le a b = true.
Proof.
  destruct a as [| | |x], b as [| | |y]; simpl; try reflexivity; try discriminate.
  intros _ _. rewrite negb_false_iff. auto.
Qed.

(** The sign of [a - b] is the order of [a] and [b]. *)
Lemma num_sub_pos a b : num_gt (num_sub a b) (num_of_Z 0) = num_gt a b.
Proof.
  unfold num_gt, num_of_Z.
  destruct a as [| | |x], b as [| | |y]; simpl; try reflexivity.
  f_equal. apply eq_true_iff_eq. rewrite !Qle_bool_iff.
  unfold inject_Z, Qle, Qminus, Qplus, Qopp; simpl. split; intros Hle; nia.
Qed.

Lemma num_of_Z_pos z : num_gt (num_of_Z z) (num_of_Z 0) = (0 <? z)%Z.
Proof.
  unfold num_gt, num_of_Z, num_lt.
  apply eq_true_iff_eq. rewrite negb_true_iff, Z.ltb_lt.
  rewrite <- not_true_iff_false, Qle_bool_iff.
  unfold inject_Z, Qle; simpl. lia.
Qed.

(** ** The sort *)

Section SortFacts.
Context {A : Type} (comparefn : A -> A -> number).
Abbreviation after := (sorts_after comparefn).
Abbreviation insert := (sort_insert comparefn).
Abbreviation sort := (Array_sort comparefn).

Lemma sort_insert_perm x l : Permutation (insert x l) (x :: l).
Proof.
  induction l as [|y l IH]; simpl; [reflexivity|].
  destruct (after x y); [|reflexivity].
  rewrite IH. apply perm_swap.
Qed.

Lemma Array_sort_perm l : Permutation (sort l) l.
Proof.
  induction l as [|x l IH]; simpl; [reflexivity|].
  rewrite sort_insert_perm. now constructor.
Qed.

Lemma Array_sort_length l : List.length (sort l) = List.length l.
Proof. apply Permutation_length, Array_sort_perm. Qed.

Lemma Array_sort_nil l : sort l = [] -> l = [].
Proof.
  intros Hs. apply Permutation_nil. rewrite <- Hs at 1.
  apply Array_sort_perm.
Qed.

(** Elements that the comparator never puts one after the other keep
    their relative order. *)
Lemma sort_insert_stable (P : A -> bool) x l :
  (forall y, P x = true -> P y = true -> after x y = false) ->
  List.filter P (insert x l) = List.filter P (x :: l).
Proof.
  intros HP. induction l as [|y l IH]; [reflexivity|].
  simpl. destruct (after x y) eqn:Hxy; [|reflexivity].
  simpl in *. rewrite IH.
  destruct (P x) eqn:Hx, (P y) eqn:Hy; try reflexivity.
  rewrite HP in Hxy by auto. discriminate.
Qed.

Lemma Array_sort_stable (P : A -> bool) l :
  (forall x y, P x = true -> P y = true -> after x y = false) ->
  List.filter P (sort l) = List.filter P l.
Proof.
  intros HP. induction l as [|x l IH]; [reflexivity|].
  simpl. rewrite sort_insert_stable by (intros; now apply HP).
  simpl. now rewrite IH.
Qed.

(** On a domain where the comparator is a consistent one, the result is
    in order. *)
Section Consistent.
Variable dom : A -> Prop.
Let le (a b : A) : Prop := after a b = false.
Hypothesis after_asym : forall a b, dom a -> dom b -> after a b = true -> le b a.
Hypothesis le_trans : forall a b c, dom a -> dom b -> dom c -> le a b -> le b c -> le a c.

Lemma sort_insert_sorted x l :
  dom x -> Forall dom l ->
  StronglySorted le l -> StronglySorted le (insert x l).
Proof.
  intros Hx Hl Hs. induction l as [|y l IH]; simpl.
  - repeat constructor.
  - inversion Hl as [|? ? Hy Hl']; subst.
    inversion Hs as [|? ? Hs' Hall]; subst.
    destruct (after x y) eqn:Hxy.
    + constructor; [now apply IH|].
      rewrite sort_insert_perm. constructor; [now apply after_asym|assumption].
    + constructor; [assumption|]. constructor; [assumption|].
      rewrite Forall_forall in *. intros z Hz.
      apply (le_trans x y z); auto.
Qed.

Lemma Array_sort_sorted l : Forall dom l -> StronglySorted le (sort l).
Proof.
  induction l as [|x l IH]; intros Hl; simpl; [constructor|].
  inversion Hl; subst. apply sort_insert_sorted; auto.
  now rewrite Array_sort_perm.
Qed.
End Consistent.
End SortFacts.

(** Sorting commutes with a map that preserves the comparator. *)
Lemma Array_sort_map {A B : Type} (f : A -> B)
    (cmpA : A -> A -> number) (cmpB : B -> B -> number) l :
  (forall x y, cmpB (f x) (f y) = cmpA x y) ->
  Array_sort cmpB (List.map f l) = List.map f (Array_sort cmpA l).
Proof.
  intros Hf. induction l as [|x l IH]; [reflexivity|].
  simpl. rewrite IH. generalize (Array_sort cmpA l) as s.
  induction s as [|y s IHs]; [reflexivity|].
  simpl. unfold sorts_after. rewrite Hf.
  destruct (num_gt (cmpA x y) (num_of_Z 0)); [|reflexivity].
  simpl. now rewrite IHs.
Qed.

(** ** The scan of one list directory *)

Lemma scan_file_tasks ts lm f :
  fst (scan_file (ts, lm) f) = ts ++ scan_order [f].
Proof.
  unfold scan_file, scan_order, accepted, malformed, is_task_file; simpl.
  destruct (endsWith (fname f) ".json"); simpl; [|now rewrite app_nil_r].
  destruct (truthy (readTaskFile f)); simpl; [reflexivity|now rewrite app_nil_r].
Qed.

Lemma scan_files_fold taskFiles acc :
  fst (fold_left scan_file taskFiles acc) = fst acc ++ scan_order taskFiles.
Proof.
  revert acc. induction taskFiles as [|f l IH]; intros [ts lm]; cbn [fold_left].
  - unfold scan_order; simpl. now rewrite app_nil_r.
  - rewrite IH, scan_file_tasks, <- app_assoc. cbn [fst]. f_equal.
    unfold scan_order; simpl. destruct (accepted f); reflexivity.
Qed.

Lemma scan_files_tasks taskFiles : fst (scan_files taskFiles) = scan_order taskFiles.
Proof. unfold scan_files. now rewrite scan_files_fold. Qed.


Lemma elem_of_kept listDirs dir r :
  In (dir, r) (kept listDirs) <-> In dir listDirs /\ scanned dir = Some r.
Proof.
  unfold kept. rewrite in_flat_map. split.
  - intros (d & Hd & Hin). destruct (scanned d) eqn:Hs; simpl in Hin; [|tauto].
    destruct Hin as [Heq|[]]. inversion Heq; subst. auto.
  - intros [Hd Hs]. exists dir. rewrite Hs. simpl. auto.
Qed.

Lemma scanned_Some dir r :
  scanned dir = Some r <->
  skipped dir = false /\
  exists taskFiles, entries dir = Some taskFiles /\ r = scan_files taskFiles /\
                    scan_order taskFiles <> [].
Proof.
  unfold scanned. destruct (skipped dir); [split; [discriminate|intros [? _]; discriminate]|].
  destruct (entries dir) as [taskFiles|].
  - rewrite scan_files_tasks.
    destruct (scan_order taskFiles) as [|t ts] eqn:Hso; simpl.
    + split; [discriminate|]. intros (_ & fs & Hfs & _ & Hne).
      inversion Hfs; subst. congruence.
    + split.
      * intros Heq. inversion Heq; subst. split; [reflexivity|].
        exists taskFiles. rewrite Hso. repeat split; congruence.
      * intros (_ & fs & Hfs & -> & _). inversion Hfs; subst. reflexivity.
  - split; [discriminate|]. intros (_ & fs & Hfs & _). discriminate.
Qed.

(** ** One pass *)

Section PassFacts.
Context `{Builtins} (homedir : string).

Lemma kept_cons dir listDirs : kept (dir :: listDirs) = kept [dir] ++ kept listDirs.
Proof. unfold kept; simpl. now rewrite app_nil_r. Qed.

Lemma scan_list_lists acc dir :
  fst (scan_list acc dir) = fst acc ++ List.map to_list (kept [dir]).
Proof.
  destruct acc as [tls cache]. unfold scan_list, kept, scanned; simpl.
  destruct (skipped dir); simpl; [now rewrite app_nil_r|].
  destruct (entries dir) as [taskFiles|]; simpl; [|now rewrite app_nil_r].
  destruct (scan_files taskFiles) as [ts lm]; simpl.
  destruct (0 <? List.length ts)%nat; simpl; [reflexivity|now rewrite app_nil_r].
Qed.

Lemma fold_scan_list listDirs acc :
  fst (fold_left scan_list listDirs acc) = fst acc ++ List.map to_list (kept listDirs).
Proof.
  revert acc. induction listDirs as [|dir l IH]; intros acc; cbn [fold_left].
  - simpl. now rewrite app_nil_r.
  - rewrite IH, scan_list_lists, (kept_cons dir l), map_app, app_assoc. reflexivity.
Qed.

Lemma fold_scan_summary listDirs summaries :
  fold_left (scan_summary homedir) listDirs summaries
  = summaries ++ List.map (to_summary homedir) (kept listDirs).
Proof.
  revert summaries. induction listDirs as [|dir l IH]; intros sums; cbn [fold_left].
  - simpl. now rewrite app_nil_r.
  - rewrite IH, (kept_cons dir l), map_app, app_assoc. f_equal.
    unfold scan_summary, kept, scanned; simpl.
    destruct (skipped dir); simpl; [now rewrite app_nil_r|].
    destruct (entries dir) as [taskFiles|]; simpl; [|now rewrite app_nil_r].
    destruct (scan_files taskFiles) as [ts lm]; simpl.
    destruct (0 <? List.length ts)%nat; simpl; [reflexivity|now rewrite app_nil_r].
Qed.

Lemma getTaskLists_TasksDir listDirs cache :
  exists cache',
    getTaskLists (TasksDir listDirs) cache
    = Some (Array_sort (by_recency lastModified) (List.map to_list (kept listDirs)), cache').
Proof.
  unfold getTaskLists.
  pose proof (fold_scan_list listDirs ([], cache)) as Hf.
  destruct (fold_left scan_list listDirs ([], cache)) as [tls cache'].
  simpl in Hf. subst tls. now exists cache'.
Qed.

Lemma getAllTaskListSummaries_TasksDir listDirs :
  getAllTaskListSummaries homedir (TasksDir listDirs)
  = Some (Array_sort (by_recency sum_lastModified) (List.map (to_summary homedir) (kept listDirs))).
Proof. unfold getAllTaskListSummaries. now rewrite fold_scan_summary. Qed.

Lemma writeFiles_dataFile tree st :
  dataFile (writeFiles homedir tree st)
  = match pass_output homedir tree (projectDir (currentConfig st)) with
    | Some d => Some d
    | None => dataFile st
    end.
Proof.
  unfold writeFiles. destruct tree as [| |listDirs]; simpl; try reflexivity.
  pose proof (fold_scan_list listDirs ([], taskDataCache st)) as Hf.
  destruct (fold_left scan_list listDirs ([], taskDataCache st)) as [tls c].
  simpl in Hf. subst tls. simpl. unfold snapshot_of.
  rewrite fold_scan_summary. reflexivity.
Qed.

Lemma writeFiles_passes tree st :
  passes (writeFiles homedir tree st) = S (passes st).
Proof.
  unfold writeFiles. destruct (getTaskLists tree _) as [[tls c]|]; [|reflexivity].
  destruct (getAllTaskListSummaries homedir tree); reflexivity.
Qed.

Lemma writeFiles_timer tree st :
  writeDebounceTimer (writeFiles homedir tree st) = writeDebounceTimer st.
Proof.
  unfold writeFiles. destruct (getTaskLists tree _) as [[tls c]|]; [|reflexivity].
  destruct (getAllTaskListSummaries homedir tree); reflexivity.
Qed.

Lemma writeFiles_config tree st :
  currentConfig (writeFiles homedir tree st) = currentConfig st
  /\ configFile (writeFiles homedir tree st) = configFile st
  /\ archived (writeFiles homedir tree st) = archived st.
Proof.
  unfold writeFiles. destruct (getTaskLists tree _) as [[tls c]|]; [|now auto].
  destruct (getAllTaskListSummaries homedir tree); now auto.
Qed.
End PassFacts.

(** ** Published snapshots *)

Section Snapshots.
Context `{Builtins} (cwd homedir : string).

Lemma step_dataFile e st : dataFile (step cwd e st) = dataFile st.
Proof.
  destruct e as [now p|now p|now clock p|now|now body|now f]; simpl;
    unfold on_add, on_change, on_unlink, on_config_change, post_config.
  - destruct (ignored_path p); reflexivity.
  - destruct (ignored_path p); reflexivity.
  - destruct (ignored_path p); [reflexivity|]. simpl.
    destruct (taskDataCache st !! basename (dirname p)) as [c|]; [|reflexivity].
    destruct (0 <? List.length (cached_tasks c))%nat; reflexivity.
  - reflexivity.
  - destruct body as [|input]; [reflexivity|].
    destruct (validateConfig (currentConfig st) input); reflexivity.
  - reflexivity.
Qed.

(** Every published snapshot is the output of a pass on some tree. *)
Lemma published_by_a_pass st d :
  reachable cwd homedir st -> dataFile st = Some d ->
  exists tree dir, pass_output homedir tree dir = Some d.
Proof.
  intros Hr. revert d. induction Hr as [file tree|e st Hr IH|now tree st Hr IH]; intros d Hd.
  - unfold main in Hd. rewrite writeFiles_dataFile in Hd.
    destruct (pass_output homedir tree _) as [d'|] eqn:Hp; [|discriminate].
    inversion Hd; subst. eauto.
  - rewrite step_dataFile in Hd. eauto.
  - unfold timer_fires in Hd.
    destruct (writeDebounceTimer st) as [due|]; [|eauto].
    destruct (due <=? now)%Z; [|eauto].
    rewrite writeFiles_dataFile in Hd.
    destruct (pass_output homedir tree _) as [d'|] eqn:Hp.
    + inversion Hd; subst. eauto.
    + simpl in Hd. eauto.
Qed.

Lemma pass_output_snapshot tree dir d :
  pass_output homedir tree dir = Some d -> exists ks, d = snapshot_of homedir dir ks.
Proof.
  destruct tree as [| |listDirs]; simpl; intros Hd; inversion Hd; eauto.
Qed.

Lemma StronglySorted_impl {A : Type} (R S : A -> A -> Prop) l :
  (forall a b, R a b -> S a b) -> StronglySorted R l -> StronglySorted S l.
Proof.
  intros HRS. induction 1 as [|a l Hs IH Hall]; constructor; [assumption|].
  eapply Forall_impl; [exact Hall|]. auto.
Qed.

Lemma by_recency_after {A : Type} (stamp : A -> Z) a b :
  sorts_after (by_recency stamp) a b = (stamp a <? stamp b)%Z.
Proof.
  unfold sorts_after, by_recency. rewrite num_of_Z_pos.
  apply eq_true_iff_eq. rewrite !Z.ltb_lt. lia.
Qed.

Lemma recency_sorted {A : Type} (stamp : A -> Z) l :
  StronglySorted (fun a b => (stamp b <= stamp a)%Z) (Array_sort (by_recency stamp) l).
Proof.
  eapply StronglySorted_impl;
    [|apply (Array_sort_sorted (by_recency stamp) (fun _ => True))].
  - intros a b; cbv beta. rewrite by_recency_after, Z.ltb_ge. auto.
  - intros a b _ _; cbv beta. rewrite !by_recency_after, Z.ltb_lt, Z.ltb_ge. lia.
  - intros a b c _ _ _; cbv beta. rewrite !by_recency_after, !Z.ltb_ge. lia.
  - apply Forall_forall. auto.
Qed.

(** C4: in every published snapshot the task lists are in descending order
    of [lastModified], and [selectedListId] is the id of the first of them,
    the empty string when there is none; hence two lists [a] and [b] with
    [a] older than [b] are published as [b; a] with [b] selected. *)
Theorem C4_lists_by_recency st d :
  reachable cwd homedir st -> dataFile st = Some d ->
  StronglySorted (fun a b => (lastModified b <= lastModified a)%Z) (taskLists d)
  /\ selectedListId d = match taskLists d with
                        | first :: _ => listId first
                        | [] => EmptyString
                        end
  /\ forall a b, Permutation (taskLists d) [a; b] ->
                 (lastModified a < lastModified b)%Z ->
                 taskLists d = [b; a] /\ selectedListId d = listId b.
Proof.
  intros Hr Hd.
  destruct (published_by_a_pass st d Hr Hd) as (tree & dir & Hp).
  destruct (pass_output_snapshot tree dir d Hp) as [ks ->].
  assert (Hs : StronglySorted (fun a b => (lastModified b <= lastModified a)%Z)
                 (taskLists (snapshot_of homedir dir ks))) by apply recency_sorted.
  split; [exact Hs|]. split; [reflexivity|].
  intros a b Hperm Hlt.
  assert (Hsel : selectedListId (snapshot_of homedir dir ks)
                 = match taskLists (snapshot_of homedir dir ks) with
                   | first :: _ => listId first
                   | [] => EmptyString
                   end) by reflexivity.
  destruct (taskLists (snapshot_of homedir dir ks)) as [|x [|y [|z l]]] eqn:Hl;
    try (apply Permutation_length in Hperm; simpl in Hperm; lia).
  rewrite Hsel.
  inversion Hs as [|? ? _ Hall]; subst. inversion Hall as [|? ? Hyx _]; subst.
  apply Permutation_length_2_inv in Hperm.
  destruct Hperm as [Heq|Heq]; inversion Heq; subst; [lia|auto].
Qed.

Lemma Forall2_map_same {A B C : Type} (R : B -> C -> Prop) (f : A -> B) (g : A -> C) l :
  (forall x, R (f x) (g x)) -> Forall2 R (List.map f l) (List.map g l).
Proof. intros HR. induction l; simpl; constructor; auto. Qed.

(** C10: in every published snapshot [taskLists] and [availableLists]
    hold the same list ids in the same order, and each summary's
    [taskCount] is the number of tasks of the list at its position. *)
Theorem C10_lists_and_summaries_agree st d :
  reachable cwd homedir st -> dataFile st = Some d ->
  List.map listId (taskLists d) = List.map sum_id (availableLists d)
  /\ Forall2 (fun tl s => listId tl = sum_id s
                          /\ taskCount s = List.length (tasks tl))
       (taskLists d) (availableLists d).
Proof.
  intros Hr Hd.
  destruct (published_by_a_pass st d Hr Hd) as (tree & dir & Hp).
  destruct (pass_output_snapshot tree dir d Hp) as [ks ->].
  unfold snapshot_of; cbn [taskLists availableLists].
  set (stamp := fun k : dirent * (list json * Z) => snd (snd k)).
  rewrite (Array_sort_map to_list (by_recency stamp) (by_recency lastModified))
    by reflexivity.
  rewrite (Array_sort_map (to_summary homedir) (by_recency stamp)
             (by_recency sum_lastModified)) by reflexivity.
  split.
  - rewrite !map_map. reflexivity.
  - apply Forall2_map_same. intros [dir' [ts lm]]; simpl.
    split; [reflexivity|]. now rewrite Array_sort_length.
Qed.
End Snapshots.

(** ** The lists of a pass *)


Lemma NoDup_map_eq {A B : Type} (f : A -> B) l x y :
  List.NoDup (List.map f l) -> In x l -> In y l -> f x = f y -> x = y.
Proof.
  induction l as [|a l IH]; simpl; [tauto|].
  intros Hnd Hx Hy Hf. apply List.NoDup_cons_iff in Hnd as [Hnotin Hnd].
  destruct Hx as [-> | Hx], Hy as [-> | Hy]; auto.
  - exfalso. apply Hnotin. rewrite Hf. now apply in_map.
  - exfalso. apply Hnotin. rewrite <- Hf. now apply in_map.
Qed.

Section Lists.
Context `{Builtins} (homedir : string).

Lemma In_taskLists dir ks tl :
  In tl (taskLists (snapshot_of homedir dir ks)) <-> exists k, In k ks /\ tl = to_list k.
Proof.
  unfold snapshot_of; cbn [taskLists].
  rewrite <- !list_elem_of_In, Array_sort_perm, !list_elem_of_In, in_map_iff.
  split; intros (k & H1 & H2); exists k; auto.
Qed.

(** The list published for a directory that holds a well-formed task. *)
Lemma published_list dirName listDirs dir taskFiles :
  In dir listDirs -> skipped dir = false -> entries dir = Some taskFiles ->
  scan_order taskFiles <> [] ->
  exists tl, In tl (taskLists (snapshot_of homedir dirName (kept listDirs)))
             /\ listId tl = dname dir
             /\ tasks tl = Array_sort by_id (scan_order taskFiles).
Proof.
  intros Hin Hskip Hent Hne.
  exists (to_list (dir, scan_files taskFiles)). split; [|split].
  - apply In_taskLists. eexists; split; [|reflexivity].
    apply elem_of_kept. split; [assumption|]. apply scanned_Some. eauto 6.
  - reflexivity.
  - simpl. now rewrite scan_files_tasks.
Qed.

(** Every published list with the name of a directory is made of the
    well-formed tasks of that directory, and there is one at least. *)
Lemma published_list_inv dirName listDirs dir taskFiles tl :
  List.NoDup (List.map dname listDirs) ->
  In dir listDirs -> entries dir = Some taskFiles ->
  In tl (taskLists (snapshot_of homedir dirName (kept listDirs))) ->
  listId tl = dname dir ->
  skipped dir = false
  /\ tasks tl = Array_sort by_id (scan_order taskFiles)
  /\ scan_order taskFiles <> [].
Proof.
  intros Hnd Hin Hent Htl Hid.
  apply In_taskLists in Htl as ([dir' r] & Hk & ->).
  apply elem_of_kept in Hk as [Hin' Hs]. simpl in Hid.
  assert (dir' = dir) as -> by (eapply NoDup_map_eq; eauto).
  apply scanned_Some in Hs as (Hskip & fs & Hfs & -> & Hne).
  rewrite Hent in Hfs. inversion Hfs; subst fs.
  simpl. now rewrite scan_files_tasks.
Qed.

Lemma writeFiles_TasksDir listDirs st :
  dataFile (writeFiles homedir (TasksDir listDirs) st)
  = Some (snapshot_of homedir (projectDir (currentConfig st)) (kept listDirs)).
Proof. now rewrite writeFiles_dataFile. Qed.


End Lists.

(** ** The order of the tasks of a list *)

Lemma StronglySorted_impl_In {A : Type} (R S : A -> A -> Prop) l :
  (forall a b, In a l -> In b l -> R a b -> S a b) ->
  StronglySorted R l -> StronglySorted S l.
Proof.
  intros HRS Hs. induction Hs as [|a l Hs IH Hall]; constructor.
  - apply IH. intros x y Hx Hy. apply HRS; now right.
  - rewrite Forall_forall in *. intros x Hx.
    apply HRS; [now left|right; now apply list_elem_of_In|now apply Hall].
Qed.

Section TaskOrder.
Context `{Builtins} (homedir : string).

Lemma by_id_after a b :
  sorts_after by_id a b = num_gt (numeric_id a) (numeric_id b).
Proof. unfold sorts_after, by_id. apply num_sub_pos. Qed.

Lemma sort_by_id_ascending ts :
  Forall (fun t => isNaN (numeric_id t) = false) ts ->
  StronglySorted (fun a b => num_le (numeric_id a) (numeric_id b) = true)
    (Array_sort by_id ts).
Proof.
  intros Hnum.
  assert (Hs := Array_sort_sorted by_id (fun t => isNaN (numeric_id t) = false)).
  eapply (StronglySorted_impl_In _ _ _ _ (Hs _ _ ts Hnum)).
  Unshelve.
  - intros a b Ha Hb; cbv beta. rewrite by_id_after. unfold num_gt.
    rewrite <- !list_elem_of_In, !Array_sort_perm, !list_elem_of_In in *.
    rewrite Forall_forall in Hnum. setoid_rewrite list_elem_of_In in Hnum.
    apply num_le_total; auto.
  - intros a b _ _; cbv beta. rewrite !by_id_after. unfold num_gt. apply num_lt_asym.
  - intros a b c Ha Hb Hc; cbv beta. rewrite !by_id_after. unfold num_gt.
    intros Hab Hbc. apply num_le_lt_false.
    apply (num_le_trans _ (numeric_id b)); apply num_le_total; auto.
Qed.

Lemma sort_by_id_same_number n ts :
  List.filter (same_number n) (Array_sort by_id ts) = List.filter (same_number n) ts.
Proof.
  apply Array_sort_stable. intros x y Hx Hy. rewrite by_id_after.
  unfold same_number in *. apply andb_true_iff in Hx as [_ Hx], Hy as [Hy _].
  unfold num_gt. apply num_le_lt_false. eapply num_le_trans; eauto.
Qed.

Lemma has_raw_id_same_number s x y :
  has_raw_id s x = true -> has_raw_id s y = true -> numeric_id x = numeric_id y.
Proof.
  unfold has_raw_id, numeric_id.
  destruct (prop "id" x) as [[| | |sx| |]|]; try discriminate.
  destruct (prop "id" y) as [[| | |sy| |]|]; try discriminate.
  intros Hx%String.eqb_eq Hy%String.eqb_eq. congruence.
Qed.

Lemma sort_by_id_raw_id s ts :
  List.filter (has_raw_id s) (Array_sort by_id ts) = List.filter (has_raw_id s) ts.
Proof.
  apply Array_sort_stable. intros x y Hx Hy. rewrite by_id_after.
  rewrite (has_raw_id_same_number s x y Hx Hy). apply num_lt_irrefl.
Qed.

(** C5, amended: the published list of a directory is a permutation of
    its well-formed tasks; when the id of every one of them parses to a
    number, the list is in ascending order of these numbers and is the
    stable such arrangement of the scan: the tasks with one numeric id,
    and the tasks with one raw id string, come in scan order. *)
Theorem C5_numeric_ids_sorted_stably st listDirs dir taskFiles :
  List.NoDup (List.map dname listDirs) ->
  In dir listDirs -> entries dir = Some taskFiles ->
  exists d,
    dataFile (writeFiles homedir (TasksDir listDirs) st) = Some d
    /\ forall tl, In tl (taskLists d) -> listId tl = dname dir ->
         Permutation (tasks tl) (scan_order taskFiles)
         /\ (Forall (fun t => isNaN (numeric_id t) = false) (scan_order taskFiles) ->
             StronglySorted (fun a b => num_le (numeric_id a) (numeric_id b) = true)
               (tasks tl)
             /\ ascending_ids (tasks tl)
             /\ (forall n, List.filter (same_number n) (tasks tl)
                           = List.filter (same_number n) (scan_order taskFiles))
             /\ (forall s, List.filter (has_raw_id s) (tasks tl)
                           = List.filter (has_raw_id s) (scan_order taskFiles))).
Proof.
  intros Hnd Hin Hent.
  eexists. split; [apply writeFiles_TasksDir|].
  intros tl Htl Hid.
  destruct (published_list_inv _ _ _ _ _ _ Hnd Hin Hent Htl Hid) as (_ & -> & _).
  split; [apply Array_sort_perm|]. intros Hnum.
  pose proof (sort_by_id_ascending _ Hnum) as Hs.
  split; [exact Hs|]. split; [|split].
  - eapply StronglySorted_impl; [|exact Hs]. cbv beta. auto.
  - intros n. apply sort_by_id_same_number.
  - intros s. apply sort_by_id_raw_id.
Qed.
End TaskOrder.

(** ** Validation *)

Lemma num_lt_not_le n a : isNaN n = false -> isNaN a = false ->
  num_lt n a = negb (num_le a n).
Proof.
  destruct n as [| | |x], a as [| | |y]; simpl; try reflexivity; discriminate.
Qed.

Lemma in_range_finite n : in_range n = true -> isFinite n = true.
Proof. destruct n; simpl; try reflexivity; discriminate. Qed.

Lemma rejected_iff_out_of_range n :
  isNaN n || num_lt n (num_of_Z 500) || num_gt n (num_of_Z 60000) = negb (in_range n).
Proof.
  unfold in_range, num_ge, num_gt. destruct (isNaN n) eqn:Hn.
  - destruct n; try discriminate. reflexivity.
  - rewrite (num_lt_not_le n), (num_lt_not_le _ n) by (assumption || reflexivity).
    simpl. now rewrite negb_andb.
Qed.

Section ConfigFacts.
Context `{Builtins}.

Lemma in_input_obj k ps :
  in_input k (JObj ps) = Ok (match assoc k ps with Some _ => true | None => false end).
Proof. unfold in_input, has_prop. destruct (assoc k ps); reflexivity. Qed.

Lemma validate_projectDir_obj ps config :
  validate_projectDir (JObj ps) config
  = match assoc "projectDir" ps with
    | None => Ok config
    | Some v => if valid_projectDir v
                then Ok (set_projectDir config (trim (string_of v)))
                else Reject err_projectDir
    end.
Proof.
  unfold validate_projectDir. rewrite in_input_obj. simpl.
  destruct (assoc "projectDir" ps) as [v|]; simpl; [|reflexivity].
  unfold valid_projectDir, is_blank.
  destruct v; simpl; try reflexivity. destruct (str_empty (trim s)); reflexivity.
Qed.

Lemma validate_pollInterval_obj ps config :
  validate_pollInterval (JObj ps) config
  = match assoc "pollInterval" ps with
    | None => Ok config
    | Some v =>
        match Number v with
        | Some n => if in_range n then Ok (set_pollInterval config n)
                    else Reject err_pollInterval
        | None => Throw
        end
    end.
Proof.
  unfold validate_pollInterval. rewrite in_input_obj. simpl.
  destruct (assoc "pollInterval" ps) as [v|]; simpl; [|reflexivity].
  destruct (Number v) as [n|]; [|reflexivity].
  rewrite rejected_iff_out_of_range. destruct (in_range n); reflexivity.
Qed.

Lemma existsb_blank items :
  existsb is_blank items = negb (forallb (fun n => negb (is_blank n)) items).
Proof.
  induction items as [|a l IH]; simpl; [reflexivity|].
  rewrite IH, negb_andb, negb_involutive. reflexivity.
Qed.

Lemma validate_agentNames_obj ps config :
  validate_agentNames (JObj ps) config
  = match assoc "agentNames" ps with
    | None => Ok config
    | Some v =>
        if valid_agentNames v
        then Ok (set_agentNames config
                   (match v with
                    | JArr items => List.map (fun n => trim (string_of n)) items
                    | _ => []
                    end))
        else Reject (match v with
                     | JArr (_ :: _) => err_agentName
                     | _ => err_agentNames
                     end)
    end.
Proof.
  unfold validate_agentNames. rewrite in_input_obj. simpl.
  destruct (assoc "agentNames" ps) as [v|]; simpl; [|reflexivity].
  destruct v as [| | | |items|]; simpl; try reflexivity.
  destruct items as [|a l]; [reflexivity|].
  cbn [List.length Nat.eqb negb andb]. rewrite existsb_blank.
  destruct (forallb _ (a :: l)); reflexivity.
Qed.

Lemma validateConfig_arr items config : validateConfig config (JArr items) = Ok config.
Proof. reflexivity. Qed.

Lemma valid_pollInterval_Some v n :
  Number v = Some n -> valid_pollInterval v = in_range n.
Proof. intros Hn. unfold valid_pollInterval. now rewrite Hn. Qed.

Lemma valid_pollInterval_inv v :
  valid_pollInterval v = true -> exists n, Number v = Some n /\ in_range n = true.
Proof.
  unfold valid_pollInterval. destruct (Number v) as [n|]; [eauto|discriminate].
Qed.

End ConfigFacts.

Section ConfigWrite.
Context `{Builtins}.

Lemma field_cases (P : string -> Prop) :
  P "projectDir" -> P "pollInterval" -> P "agentNames" ->
  forall k, In k config_fields -> P k.
Proof. intros H1 H2 H3 k [<-|[<-|[<-|[]]]]; assumption. Qed.

(** The three outcomes of [validateConfig]: it throws on a primitive, and
    on an object whose [pollInterval] cannot be converted. *)
Lemma validateConfig_cases cur input :
  match validateConfig cur input with
  | Ok c => all_fields_valid input /\ c = updated input cur
            /\ match input with JObj _ | JArr _ => True | _ => False end
  | Reject e => exists k, error_names e k /\ invalid_field input k
  | Throw => match input with
             | JObj _ => conversion_throws input
             | JArr _ => False
             | _ => True
             end
  end.
Proof.
  destruct input as [| | | |items|ps]; try exact I.
  - rewrite validateConfig_arr. split; [|split; [|exact I]].
    + intros k v _ Hv. discriminate.
    + destruct cur; reflexivity.
  - unfold validateConfig. rewrite validate_projectDir_obj.
    destruct (assoc "projectDir" ps) as [v1|] eqn:H1;
      [destruct (valid_projectDir v1) eqn:V1|]; cbn [bind].
    2: { exists "projectDir". split; [left; auto|].
         split; [simpl; auto|]. exists v1. auto. }
    all: rewrite validate_pollInterval_obj;
      (destruct (assoc "pollInterval" ps) as [v2|] eqn:H2;
       [destruct (Number v2) as [n2|] eqn:N2;
        [pose proof (valid_pollInterval_Some v2 n2 N2) as V2;
         destruct (in_range n2) eqn:R2|]|]); cbn [bind].
    all: try (exists "pollInterval"; split; [right; left; auto|];
              split; [simpl; auto|]; exists v2; now auto).
    all: try (exists v2; split; [exact H2|exact N2]).
    all: rewrite validate_agentNames_obj;
      (destruct (assoc "agentNames" ps) as [v3|] eqn:H3;
       [destruct (valid_agentNames v3) eqn:V3|]).
    all: try (exists "agentNames"; split;
              [right; right; split; [|reflexivity];
               destruct v3 as [| | | |[|? ?]|]; auto
              |split; [simpl; auto|]; exists v3; now auto]).
    all: split; [|split; [|exact I]].
    all: try (intros k v Hk; revert k Hk v;
              apply (field_cases (fun k => forall v, prop k (JObj ps) = Some v ->
                                                     field_valid k v = true));
              intros v Hv; simpl in Hv; rewrite ?H1, ?H2, ?H3 in Hv;
              inversion Hv; subst; first [exact V1|exact V2|exact V3]).
    all: unfold updated, new_projectDir, new_pollInterval, new_agentNames;
      simpl; rewrite ?H1, ?H2, ?H3, ?N2; destruct cur; simpl; try reflexivity.
    all: try (destruct v3; try discriminate; reflexivity).
Qed.
End ConfigWrite.

(** ** The configuration claims *)

Section ConfigClaims.
Context `{Builtins} (cwd homedir : string).

Lemma post_config_cases now input st :
  match validateConfig (currentConfig st) input with
  | Ok c => post_config now (Doc input) st
            = (scheduleWriteFiles now (set_configFile (set_config st c) (saveConfig c)),
               Status200 c)
  | Reject e => post_config now (Doc input) st = (st, Status400 e)
  | Throw => post_config now (Doc input) st = (st, Status400 "Invalid JSON")
  end.
Proof.
  unfold post_config. destruct (validateConfig (currentConfig st) input); reflexivity.
Qed.

Lemma post_config_invalid st now input k :
  invalid_field input k ->
  fst (post_config now (Doc input) st) = st
  /\ exists e, snd (post_config now (Doc input) st) = Status400 e
               /\ ((exists k', error_names e k' /\ invalid_field input k')
                   \/ (e = "Invalid JSON" /\ conversion_throws input)).
Proof.
  intros (Hk & v & Hpk & Hbad).
  pose proof (post_config_cases now input st) as Hp.
  pose proof (validateConfig_cases (currentConfig st) input) as Hv.
  destruct (validateConfig (currentConfig st) input) as [c|e|]; rewrite Hp.
  - destruct Hv as (Hall & _). rewrite (Hall k v Hk Hpk) in Hbad. discriminate.
  - simpl. split; [reflexivity|]. exists e. split; [reflexivity|]. now left.
  - destruct input; try contradiction; try discriminate.
    simpl. split; [reflexivity|]. eexists. split; [reflexivity|]. now right.
Qed.

Lemma post_config_accepted st now input c :
  snd (post_config now (Doc input) st) = Status200 c ->
  all_fields_valid input
  /\ c = updated input (currentConfig st)
  /\ fst (post_config now (Doc input) st)
     = scheduleWriteFiles now (set_configFile (set_config st c) (saveConfig c)).
Proof.
  intros Hc.
  pose proof (post_config_cases now input st) as Hp.
  pose proof (validateConfig_cases (currentConfig st) input) as Hv.
  destruct (validateConfig (currentConfig st) input) as [c'|e|];
    rewrite Hp in *; try discriminate.
  simpl in Hc. inversion Hc; subst c'. destruct Hv as (Hall & Hupd & _). auto.
Qed.


(** ** What can be loaded *)

Lemma map_string_of names : List.map string_of (List.map JStr names) = names.
Proof. induction names; simpl; congruence. Qed.

Lemma forallb_nonempty names :
  forallb is_nonempty_string (List.map JStr names)
  = forallb (fun n => negb (str_empty n)) names.
Proof. induction names; simpl; congruence. Qed.

Lemma load_save c cwd' : loadable c -> loadConfig cwd' (saveConfig c) = c.
Proof.
  intros (Hp & Hr & Hne & Hall). destruct c as [p n names]; simpl in *.
  destruct n as [| | |q]; try discriminate.
  unfold in_range, num_ge in Hr; simpl in Hr.
  unfold loadConfig, saveConfig, config_to_json; simpl.
  unfold load_projectDir, load_pollInterval, load_agentNames; simpl.
  rewrite Hp, Hr; simpl.
  rewrite forallb_nonempty, Hall, map_string_of, length_map.
  destruct names; [congruence|reflexivity].
Qed.

Lemma not_blank_nonempty s : str_empty (trim s) = false -> str_empty s = false.
Proof. destruct s; [rewrite trim_empty; discriminate|reflexivity]. Qed.
End ConfigClaims.

Section ConfigRoundTrip.
Context `{Builtins} (cwd homedir : string).

Lemma forallb_not_blank names :
  forallb (fun n => negb (is_blank n)) (List.map JStr names)
  = forallb (fun n => negb (str_empty (trim n))) names.
Proof. induction names; simpl; congruence. Qed.

Lemma validated_config_loadable cur c c' :
  validateConfig cur (config_to_json c) = Ok c' -> loadable c /\ loadable c'.
Proof.
  intros Hv. pose proof (validateConfig_cases cur (config_to_json c)) as Hc.
  rewrite Hv in Hc. destruct Hc as (Hall & -> & _).
  destruct c as [p n names].
  pose proof (Hall "projectDir" (JStr p)) as Hp.
  pose proof (Hall "pollInterval" (json_of_number n)) as Hn.
  pose proof (Hall "agentNames" (JArr (List.map JStr names))) as Ha.
  specialize (Hp ltac:(simpl; auto) eq_refl).
  specialize (Hn ltac:(simpl; auto) eq_refl).
  specialize (Ha ltac:(simpl; auto) eq_refl).
  change (negb (str_empty (trim p)) = true) in Hp.
  change (valid_pollInterval (json_of_number n) = true) in Hn.
  change (negb (Nat.eqb (List.length (List.map JStr names)) 0)
          && forallb (fun n => negb (is_blank n)) (List.map JStr names) = true) in Ha.
  apply negb_true_iff in Hp. apply andb_true_iff in Ha as [Hlen Hnames].
  rewrite forallb_not_blank in Hnames. rewrite length_map in Hlen.
  assert (Hfin : json_of_number n = JNum n).
  { unfold json_of_number in *. destruct (isFinite n); [reflexivity|discriminate]. }
  rewrite Hfin in Hn. change (in_range n = true) in Hn.
  assert (Hne : names <> []) by (destruct names; [discriminate|congruence]).
  split.
  - repeat split; simpl; auto.
    + now apply not_blank_nonempty.
    + clear -Hnames. induction names as [|a l IH]; simpl in *; [reflexivity|].
      apply andb_true_iff in Hnames as [Ha Hl]. rewrite negb_true_iff in Ha.
      rewrite (not_blank_nonempty a Ha). simpl. auto.
  - unfold updated, new_projectDir, new_pollInterval, new_agentNames, loadable.
    cbn [prop config_to_json assoc String.eqb Ascii.eqb Bool.eqb
         projectDir pollInterval agentNames string_of].
    rewrite Hfin. change (default (pollInterval cur) (Number (JNum n))) with n.
    rewrite map_map. cbn [string_of].
    repeat split; auto.
    + destruct names; [congruence|discriminate].
    + clear -Hnames. induction names as [|a l IH]; simpl in *; [reflexivity|].
      apply andb_true_iff in Hnames as [Ha Hl]. rewrite Ha. simpl. auto.
Qed.

(** C7: a configuration that passes validation, written by [saveConfig]
    and read back by [loadConfig], in a process started in any directory,
    is the configuration that was written; so is the trimmed configuration
    that validation returns, which a process started on the saved file
    ([main]) takes as its live configuration. *)
Theorem C7_config_round_trip cwd' cur c c' :
  validateConfig cur (config_to_json c) = Ok c' ->
  loadConfig cwd' (saveConfig c) = c
  /\ loadConfig cwd' (saveConfig c') = c'
  /\ forall tree, currentConfig (main cwd' homedir (saveConfig c') tree) = c'.
Proof.
  intros Hv. destruct (validated_config_loadable cur c c' Hv) as [Hc Hc'].
  split; [now apply load_save|]. split; [now apply load_save|].
  intros tree. unfold main.
  destruct (writeFiles_config homedir tree
    {| currentConfig := loadConfig cwd' (saveConfig c');
       configFile := saveConfig c';
       taskDataCache := ∅; writeDebounceTimer := None; archived := [];
       dataFile := None; passes := 0 |}) as [Heq _].
  simpl in *. rewrite Heq. now apply load_save.
Qed.
End ConfigRoundTrip.

(** ** The live configuration *)

Section LiveConfig.
Context `{Builtins} (cwd homedir : string).

Lemma load_pollInterval_spec parsed :
  load_pollInterval cwd parsed
  = match prop "pollInterval" parsed with
    | Some (JNum n) => if in_range n then n else num_of_Z 2000
    | _ => num_of_Z 2000
    end.
Proof. reflexivity. Qed.

Lemma loadConfig_pollInterval parsed :
  pollInterval (loadConfig cwd (Text (Doc parsed))) = load_pollInterval cwd parsed.
Proof. destruct parsed; reflexivity. Qed.

Lemma loadConfig_in_range file : in_range (pollInterval (loadConfig cwd file)) = true.
Proof.
  destruct file as [| |[|parsed]]; try reflexivity.
  rewrite loadConfig_pollInterval, load_pollInterval_spec.
  destruct (prop "pollInterval" parsed) as [[| |n| | |]|]; try reflexivity.
  destruct (in_range n) eqn:Hn; [assumption|reflexivity].
Qed.

Lemma validateConfig_in_range cur input c :
  in_range (pollInterval cur) = true ->
  validateConfig cur input = Ok c -> in_range (pollInterval c) = true.
Proof.
  intros Hcur Hv. pose proof (validateConfig_cases cur input) as Hc.
  rewrite Hv in Hc. destruct Hc as (Hall & -> & _).
  unfold updated, new_pollInterval; simpl.
  destruct (prop "pollInterval" input) as [v|] eqn:Hp; [|assumption].
  destruct (valid_pollInterval_inv v) as (n & -> & Hn); [|exact Hn].
  apply (Hall "pollInterval" v); [simpl; auto|assumption].
Qed.

Lemma timer_fires_config now tree st :
  currentConfig (timer_fires homedir now tree st) = currentConfig st.
Proof.
  unfold timer_fires. destruct (writeDebounceTimer st) as [due|]; [|reflexivity].
  destruct (due <=? now)%Z; [|reflexivity].
  now destruct (writeFiles_config homedir tree (set_timer st None)) as [-> _].
Qed.

Lemma on_unlink_config now clock p st :
  currentConfig (on_unlink now clock p st) = currentConfig st.
Proof.
  unfold on_unlink. destruct (ignored_path p); [reflexivity|]. simpl.
  destruct (taskDataCache st !! basename (dirname p)) as [c|]; [|reflexivity].
  destruct (0 <? List.length (cached_tasks c))%nat; reflexivity.
Qed.

Lemma reachable_in_range st :
  reachable cwd homedir st -> in_range (pollInterval (currentConfig st)) = true.
Proof.
  induction 1 as [file tree|e st Hr IH|now tree st Hr IH].
  - unfold main. destruct (writeFiles_config homedir tree
      {| currentConfig := loadConfig cwd file;
         configFile := match file with Absent => saveConfig (loadConfig cwd file)
                                     | _ => file end;
         taskDataCache := ∅; writeDebounceTimer := None; archived := [];
         dataFile := None; passes := 0 |}) as [-> _].
    apply loadConfig_in_range.
  - destruct e as [now p|now p|now clock p|now|now body|now f]; simpl.
    + unfold on_add. destruct (ignored_path p); assumption.
    + unfold on_change. destruct (ignored_path p); assumption.
    + now rewrite on_unlink_config.
    + apply loadConfig_in_range.
    + destruct body as [|input]; [assumption|].
      pose proof (post_config_cases now input st) as Hp.
      destruct (validateConfig (currentConfig st) input) as [c|e|] eqn:Hv;
        rewrite Hp; simpl; try assumption.
      eapply validateConfig_in_range; eauto.
    + assumption.
  - now rewrite timer_fires_config.
Qed.

(** C8, amended: the [pollInterval] of the live configuration is always a
    number between 500 and 60000, an integer or not; an API write whose
    [pollInterval] converts to a number outside this range, or to NaN, or
    does not convert at all, is rejected and changes nothing, and one
    that is accepted stores the converted number; on load, a
    [pollInterval] that is not a number in the range gives way to the
    default 2000. *)
Theorem C8_pollInterval_in_range :
  (forall st, reachable cwd homedir st ->
     in_range (pollInterval (currentConfig st)) = true)
  /\ (forall st now input v,
        prop "pollInterval" input = Some v ->
        (forall n, Number v = Some n -> in_range n = false) ->
        fst (post_config now (Doc input) st) = st
        /\ exists e, snd (post_config now (Doc input) st) = Status400 e)
  /\ (forall st now input v c,
        prop "pollInterval" input = Some v ->
        snd (post_config now (Doc input) st) = Status200 c ->
        exists n, Number v = Some n /\ pollInterval c = n /\ in_range n = true)
  /\ (forall parsed,
        pollInterval (loadConfig cwd (Text (Doc parsed)))
        = match prop "pollInterval" parsed with
          | Some (JNum n) => if in_range n then n else num_of_Z 2000
          | _ => num_of_Z 2000
          end).
Proof.
  split; [exact reachable_in_range|]. split; [|split].
  - intros st now input v Hp Hbad.
    destruct (post_config_invalid st now input "pollInterval")
      as (Hst & e & He & _); [|eauto].
    split; [simpl; auto|]. exists v. split; [exact Hp|].
    change (valid_pollInterval v = false). unfold valid_pollInterval.
    destruct (Number v) as [n|]; [now apply Hbad|reflexivity].
  - intros st now input v c Hp Hok.
    destruct (post_config_accepted st now input c Hok) as (Hall & -> & _).
    destruct (valid_pollInterval_inv v) as (n & Hn & Hr).
    { apply (Hall "pollInterval" v); [simpl; auto|assumption]. }
    exists n. split; [exact Hn|]. split; [|exact Hr].
    unfold updated, new_pollInterval; simpl. now rewrite Hp, Hn.
  - intros parsed. now rewrite loadConfig_pollInterval.
Qed.
End LiveConfig.

(** ** The live configuration can always be reloaded *)

Section Reload.
Context `{Builtins} (cwd homedir : string).
Hypothesis cwd_nonempty : str_empty cwd = false.

Lemma forallb_string_of items :
  forallb is_nonempty_string items = true ->
  forallb (fun n => negb (str_empty n)) (List.map string_of items) = true.
Proof.
  induction items as [|a l IH]; simpl; [reflexivity|].
  intros [Ha Hl]%andb_true_iff. rewrite IH by assumption.
  destruct a; simpl in *; try discriminate. now rewrite Ha.
Qed.

Lemma loadConfig_loadable file : loadable (loadConfig cwd file).
Proof.
  assert (Hdef : loadable (DEFAULT_CONFIG cwd)) by (repeat split; auto; try discriminate).
  destruct file as [| |[|parsed]]; try exact Hdef.
  assert (Hfields : loadable {| projectDir := load_projectDir cwd parsed;
                                pollInterval := load_pollInterval cwd parsed;
                                agentNames := load_agentNames cwd parsed |}).
  { split; [|split; [|split]]; simpl.
    - unfold load_projectDir.
      destruct (prop "projectDir" parsed) as [[| | |s| |]|]; try exact cwd_nonempty.
      destruct (str_empty s) eqn:Hs; simpl; [exact cwd_nonempty|exact Hs].
    - rewrite <- (loadConfig_pollInterval cwd). apply (loadConfig_in_range cwd (Text (Doc parsed))).
    - unfold load_agentNames.
      destruct (prop "agentNames" parsed) as [[| | | |items|]|]; try discriminate.
      destruct items as [|a l]; simpl; [discriminate|].
      destruct (is_nonempty_string a && forallb is_nonempty_string l); discriminate.
    - unfold load_agentNames.
      destruct (prop "agentNames" parsed) as [[| | | |items|]|]; try reflexivity.
      destruct (negb (Nat.eqb (List.length items) 0) && forallb is_nonempty_string items)
        eqn:Hc; [|reflexivity].
      apply andb_true_iff in Hc as [_ Hc]. now apply forallb_string_of. }
  destruct parsed; exact Hfields.
Qed.

Lemma validateConfig_loadable cur input c :
  loadable cur -> validateConfig cur input = Ok c -> loadable c.
Proof.
  intros (Hp & Hr & Hne & Hall) Hv.
  pose proof (validateConfig_cases cur input) as Hc. rewrite Hv in Hc.
  destruct Hc as (Hvalid & -> & _).
  unfold updated, loadable; simpl. split; [|split; [|split]].
  - unfold new_projectDir.
    destruct (prop "projectDir" input) as [v|] eqn:Hv1; [|assumption].
    specialize (Hvalid "projectDir" v ltac:(simpl; auto) Hv1).
    change (negb (is_blank v) = true) in Hvalid.
    destruct v; try discriminate. simpl in *. now apply negb_true_iff.
  - unfold new_pollInterval.
    destruct (prop "pollInterval" input) as [v|] eqn:Hv2; [|assumption].
    destruct (valid_pollInterval_inv v (Hvalid "pollInterval" v ltac:(simpl; auto) Hv2))
      as (n & -> & Hn). exact Hn.
  - unfold new_agentNames.
    destruct (prop "agentNames" input) as [v|] eqn:Hv3; [|assumption].
    specialize (Hvalid "agentNames" v ltac:(simpl; auto) Hv3).
    change (valid_agentNames v = true) in Hvalid.
    destruct v as [| | | |[|a l]|]; try discriminate.
  - unfold new_agentNames.
    destruct (prop "agentNames" input) as [v|] eqn:Hv3; [|assumption].
    specialize (Hvalid "agentNames" v ltac:(simpl; auto) Hv3).
    change (valid_agentNames v = true) in Hvalid.
    destruct v as [| | | |items|]; try discriminate.
    apply andb_true_iff in Hvalid as [_ Hnb]. clear -Hnb.
    induction items as [|a l IH]; simpl in *; [reflexivity|].
    apply andb_true_iff in Hnb as [Ha Hl]. rewrite IH by assumption.
    destruct a; simpl in *; try discriminate. now rewrite Ha.
Qed.

Lemma reachable_loadable st : reachable cwd homedir st -> loadable (currentConfig st).
Proof.
  induction 1 as [file tree|e st Hr IH|now tree st Hr IH].
  - unfold main. destruct (writeFiles_config homedir tree
      {| currentConfig := loadConfig cwd file;
         configFile := match file with Absent => saveConfig (loadConfig cwd file)
                                     | _ => file end;
         taskDataCache := ∅; writeDebounceTimer := None; archived := [];
         dataFile := None; passes := 0 |}) as [-> _].
    apply loadConfig_loadable.
  - destruct e as [now p|now p|now clock p|now|now body|now f]; simpl.
    + unfold on_add. destruct (ignored_path p); assumption.
    + unfold on_change. destruct (ignored_path p); assumption.
    + now rewrite on_unlink_config.
    + apply loadConfig_loadable.
    + destruct body as [|input]; [assumption|].
      pose proof (post_config_cases now input st) as Hp.
      destruct (validateConfig (currentConfig st) input) as [c|e|] eqn:Hv;
        rewrite Hp; simpl; try assumption.
      eapply validateConfig_loadable; eauto.
    + assumption.
  - now rewrite timer_fires_config.
Qed.

(** Whatever the process holds as its configuration, a process started
    on the file [saveConfig] writes of it holds the same. *)
Lemma live_config_reloads st cwd' :
  reachable cwd homedir st ->
  loadConfig cwd' (saveConfig (currentConfig st)) = currentConfig st.
Proof. intros Hr. apply load_save. now apply reachable_loadable. Qed.

(** After a POST the file holds the live configuration. *)
Lemma post_config_file_in_step now input st c :
  snd (post_config now (Doc input) st) = Status200 c ->
  configFile (fst (post_config now (Doc input) st))
  = saveConfig (currentConfig (fst (post_config now (Doc input) st))).
Proof.
  intros Hc. destruct (post_config_accepted st now input c Hc) as (_ & _ & ->).
  reflexivity.
Qed.
End Reload.

(** ** Archiving *)

Section Archive.
Context `{Builtins} (homedir : string).

Lemma nonempty_length {A : Type} (l : list A) :
  l <> [] -> (0 <? List.length l)%nat = true.
Proof. destruct l; [congruence|reflexivity]. Qed.

Lemma on_unlink_cached now clock filePath st entry :
  ignored_path filePath = false ->
  taskDataCache st !! basename (dirname filePath) = Some entry ->
  cached_tasks entry <> [] ->
  on_unlink now clock filePath st
  = scheduleWriteFiles now
      (set_cache
         (archiveTaskList clock (basename (dirname filePath)) (cached_tasks entry) st)
         (delete (basename (dirname filePath)) (taskDataCache st))).
Proof.
  intros Hi Hc Hne. unfold on_unlink. rewrite Hi, Hc, (nonempty_length _ Hne).
  reflexivity.
Qed.



End Archive.

(** ** The debounce timer *)

Section Debounce.
Context `{Builtins} (cwd homedir : string).

Lemma step_passes e st : passes (step cwd e st) = passes st.
Proof.
  destruct e as [now p|now p|now clock p|now|now body|now f]; simpl;
    unfold on_add, on_change, on_unlink, on_config_change, post_config.
  - destruct (ignored_path p); reflexivity.
  - destruct (ignored_path p); reflexivity.
  - destruct (ignored_path p); [reflexivity|]. simpl.
    destruct (taskDataCache st !! basename (dirname p)) as [c|]; [|reflexivity].
    destruct (0 <? List.length (cached_tasks c))%nat; reflexivity.
  - reflexivity.
  - destruct body as [|input]; [reflexivity|].
    destruct (validateConfig (currentConfig st) input); reflexivity.
  - reflexivity.
Qed.

(** A request sets the timer 300 ms ahead, whatever timer was pending. *)
Lemma step_request e st :
  requests e st = true ->
  writeDebounceTimer (step cwd e st) = Some (time_of e + 300)%Z.
Proof.
  destruct e as [now p|now p|now clock p|now|now body|now f]; simpl;
    unfold on_add, on_change, on_unlink, on_config_change.
  - intros Hp%negb_true_iff. now rewrite Hp.
  - intros Hp%negb_true_iff. now rewrite Hp.
  - intros Hp%negb_true_iff. now rewrite Hp.
  - reflexivity.
  - unfold post_config. destruct body as [|input]; [discriminate|].
    destruct (validateConfig (currentConfig st) input); simpl;
      [reflexivity|discriminate|discriminate].
  - discriminate.
Qed.

Lemma elapse_early tree_at now st due :
  writeDebounceTimer st = Some due -> (now < due)%Z ->
  elapse homedir tree_at now st = st.
Proof.
  intros Ht Hlt. unfold elapse. rewrite Ht.
  destruct (due <=? now)%Z eqn:Hle; [apply Z.leb_le in Hle; lia|reflexivity].
Qed.

Lemma elapse_due tree_at now st due :
  writeDebounceTimer st = Some due -> (due <= now)%Z ->
  elapse homedir tree_at now st
  = writeFiles homedir (tree_at due) (set_timer st None).
Proof.
  intros Ht Hle. unfold elapse, timer_fires. rewrite Ht.
  apply Z.leb_le in Hle. rewrite Hle, Z.leb_refl. reflexivity.
Qed.

Lemma elapse_idle tree_at now st :
  writeDebounceTimer st = None -> elapse homedir tree_at now st = st.
Proof. intros Ht. unfold elapse. now rewrite Ht. Qed.

(** While a burst lasts, no pass runs and the timer moves on. *)
Lemma burst_run tree_at evs : forall t st,
  writeDebounceTimer st = Some (t + 300)%Z ->
  is_burst cwd homedir tree_at t evs st ->
  passes (run cwd homedir tree_at evs st) = passes st
  /\ writeDebounceTimer (run cwd homedir tree_at evs st)
     = Some (last_time t evs + 300)%Z.
Proof.
  induction evs as [|e evs IH]; intros t st Ht Hb; simpl; [auto|].
  destruct Hb as (Hgap & Hreq & Hb).
  assert (He : elapse homedir tree_at (time_of e) st = st)
    by (eapply elapse_early; [eassumption|lia]).
  assert (Hd : deliver cwd homedir tree_at st e = step cwd e st)
    by (unfold deliver; now rewrite He).
  rewrite Hd in *. rewrite He in Hreq.
  destruct (IH (time_of e) (step cwd e st)) as [Hp Htm]; auto.
  - now apply step_request.
  - rewrite Hp, Htm, step_passes. auto.
Qed.

(** C6: a burst of requests, the first one arriving while no timer is due
    and each next one less than 300 ms after the one before, runs no pass
    while it lasts and leaves one timer, due 300 ms after the last
    request; nothing runs before that time, and exactly one pass runs once
    it has come.  A further request after that time leads, 300 ms later,
    to exactly one more pass. *)
Theorem C6_burst_gives_one_pass tree_at st e evs :
  (forall due, writeDebounceTimer st = Some due -> (time_of e < due)%Z) ->
  requests e st = true ->
  is_burst cwd homedir tree_at (time_of e) evs (step cwd e st) ->
  let t_last := last_time (time_of e) evs in
  let st1 := run cwd homedir tree_at (e :: evs) st in
  passes st1 = passes st
  /\ writeDebounceTimer st1 = Some (t_last + 300)%Z
  /\ (forall now, (now < t_last + 300)%Z -> elapse homedir tree_at now st1 = st1)
  /\ (forall now, (t_last + 300 <= now)%Z ->
        passes (elapse homedir tree_at now st1) = S (passes st)
        /\ writeDebounceTimer (elapse homedir tree_at now st1) = None)
  /\ (forall e',
        (t_last + 300 <= time_of e')%Z ->
        requests e' (elapse homedir tree_at (time_of e') st1) = true ->
        let st2 := deliver cwd homedir tree_at st1 e' in
        (forall now, (now < time_of e' + 300)%Z ->
           passes (elapse homedir tree_at now st2) = S (passes st))
        /\ (forall now, (time_of e' + 300 <= now)%Z ->
              passes (elapse homedir tree_at now st2) = S (S (passes st)))).
Proof.
  intros Hidle Hreq Hb t_last st1.
  assert (He : elapse homedir tree_at (time_of e) st = st).
  { destruct (writeDebounceTimer st) as [due|] eqn:Ht.
    - eapply elapse_early; [eassumption|]. now apply Hidle.
    - now apply elapse_idle. }
  assert (Hst1 : st1 = run cwd homedir tree_at evs (step cwd e st)).
  { assert (Hd : deliver cwd homedir tree_at st e = step cwd e st)
      by (unfold deliver; now rewrite He).
    subst st1. simpl. now rewrite Hd. }
  destruct (burst_run tree_at evs (time_of e) (step cwd e st)) as [Hp Ht];
    [now apply step_request|assumption|].
  rewrite <- Hst1 in Hp, Ht. rewrite step_passes in Hp. fold t_last in Ht.
  assert (Hfire : forall now, (t_last + 300 <= now)%Z ->
            passes (elapse homedir tree_at now st1) = S (passes st)
            /\ writeDebounceTimer (elapse homedir tree_at now st1) = None).
  { intros now Hnow. rewrite (elapse_due tree_at now st1 _ Ht Hnow).
    rewrite writeFiles_passes, writeFiles_timer. simpl. now rewrite Hp. }
  split; [exact Hp|]. split; [exact Ht|]. split; [|split; [exact Hfire|]].
  - intros now Hnow. eapply elapse_early; eassumption.
  - intros e' Hlate Hreq' st2.
    destruct (Hfire (time_of e') Hlate) as [Hp1 Ht1].
    assert (Ht2 : writeDebounceTimer st2 = Some (time_of e' + 300)%Z)
      by (subst st2; unfold deliver; now apply step_request).
    assert (Hp2 : passes st2 = S (passes st))
      by (subst st2; unfold deliver; now rewrite step_passes).
    split; intros now Hnow.
    + rewrite (elapse_early tree_at now st2 _ Ht2 Hnow). exact Hp2.
    + rewrite (elapse_due tree_at now st2 _ Ht2 Hnow).
      rewrite writeFiles_passes. simpl. now rewrite Hp2.
Qed.
End Debounce.

(** ** The cache after a pass *)

Section CacheFacts.
Context `{Builtins} (homedir : string).

Lemma scan_list_cache acc dir :
  snd (scan_list acc dir) = fold_left cache_insert (kept [dir]) (snd acc).
Proof.
  destruct acc as [tls cache]. unfold scan_list, kept, scanned; simpl.
  destruct (skipped dir); simpl; [reflexivity|].
  destruct (entries dir) as [taskFiles|]; simpl; [|reflexivity].
  destruct (scan_files taskFiles) as [ts lm]; simpl.
  destruct (0 <? List.length ts)%nat; reflexivity.
Qed.

Lemma fold_scan_list_cache listDirs acc :
  snd (fold_left scan_list listDirs acc) = fold_left cache_insert (kept listDirs) (snd acc).
Proof.
  revert acc. induction listDirs as [|dir l IH]; intros acc; cbn [fold_left].
  - reflexivity.
  - rewrite IH, scan_list_cache, (kept_cons dir l), fold_left_app. reflexivity.
Qed.

Lemma writeFiles_cache listDirs st :
  taskDataCache (writeFiles homedir (TasksDir listDirs) st)
  = fold_left cache_insert (kept listDirs) (taskDataCache st).
Proof.
  unfold writeFiles, getTaskLists.
  pose proof (fold_scan_list_cache listDirs ([], taskDataCache (count_pass st))) as Hc.
  destruct (fold_left scan_list listDirs ([], taskDataCache (count_pass st)))
    as [tls c]. simpl in Hc. subst c.
  now rewrite getAllTaskListSummaries_TasksDir.
Qed.

Lemma fold_insert_other ks : forall cache name,
  ~ In name (List.map (fun k => dname (fst k)) ks) ->
  fold_left cache_insert ks cache !! name = cache !! name.
Proof.
  induction ks as [|k ks IH]; intros cache name Hn; simpl; [reflexivity|].
  rewrite IH by (intros Hin; apply Hn; now right).
  unfold cache_insert. apply lookup_insert_ne.
  intros Heq. apply Hn. now left.
Qed.

Lemma fold_insert_lookup ks : forall cache k,
  List.NoDup (List.map (fun k => dname (fst k)) ks) -> In k ks ->
  fold_left cache_insert ks cache !! dname (fst k) = Some (entry_of k).
Proof.
  induction ks as [|a ks IH]; intros cache k Hnd Hin; [destruct Hin|].
  simpl in Hnd. apply List.NoDup_cons_iff in Hnd as [Hnotin Hnd].
  destruct Hin as [-> | Hin]; simpl.
  - rewrite fold_insert_other by assumption. apply lookup_insert_eq.
  - now apply IH.
Qed.

Lemma kept_names listDirs name :
  In name (List.map (fun k => dname (fst k)) (kept listDirs)) ->
  In name (List.map dname listDirs).
Proof.
  rewrite !in_map_iff. intros ([dir r] & <- & Hk).
  apply elem_of_kept in Hk as [Hin _]. eauto.
Qed.

Lemma kept_NoDup listDirs :
  List.NoDup (List.map dname listDirs) ->
  List.NoDup (List.map (fun k => dname (fst k)) (kept listDirs)).
Proof.
  induction listDirs as [|dir l IH]; intros Hnd; [constructor|].
  simpl in Hnd. apply List.NoDup_cons_iff in Hnd as [Hnotin Hnd].
  rewrite kept_cons. unfold kept at 1; simpl.
  destruct (scanned dir) as [r|]; simpl; [|now apply IH].
  constructor; [|now apply IH]. intros Hin. apply Hnotin. now apply kept_names.
Qed.

(** After a pass, the cache holds for every published list the tasks and
    the time that were published. *)
Lemma pass_caches_published listDirs st d tl :
  List.NoDup (List.map dname listDirs) ->
  dataFile (writeFiles homedir (TasksDir listDirs) st) = Some d ->
  In tl (taskLists d) ->
  taskDataCache (writeFiles homedir (TasksDir listDirs) st) !! listId tl
  = Some {| cached_tasks := tasks tl; cached_lastModified := lastModified tl |}
  /\ tasks tl <> [].
Proof.
  intros Hnd Hd Htl. rewrite writeFiles_TasksDir in Hd. inversion Hd; subst d.
  apply In_taskLists in Htl as (k & Hk & ->).
  split.
  - rewrite writeFiles_cache.
    apply (fold_insert_lookup (kept listDirs) _ k); [now apply kept_NoDup|assumption].
  - destruct k as [dir r]. apply elem_of_kept in Hk as [_ Hs].
    apply scanned_Some in Hs as (_ & fs & _ & -> & Hne).
    simpl. rewrite scan_files_tasks. intros Hnil. apply Hne.
    now apply (Array_sort_nil by_id).
Qed.

(** The file archived at the removal of a task file of a list holds the
    tasks that the last pass published for that list. *)
Lemma archive_holds_last_published listDirs st d tl now clock filePath :
  List.NoDup (List.map dname listDirs) ->
  dataFile (writeFiles homedir (TasksDir listDirs) st) = Some d ->
  In tl (taskLists d) ->
  ignored_path filePath = false ->
  basename (dirname filePath) = listId tl ->
  archived (on_unlink now clock filePath (writeFiles homedir (TasksDir listDirs) st))
  = {| archive_name := (listId tl, fst clock);
       archive_id := listId tl;
       archivedAt := snd clock;
       archive_tasks := tasks tl |}
    :: archived st.
Proof.
  intros Hnd Hd Htl Hi Hid.
  destruct (pass_caches_published listDirs st d tl Hnd Hd Htl) as [Hc Hne].
  rewrite <- Hid in Hc.
  rewrite (on_unlink_cached now clock filePath _ _ Hi Hc Hne). simpl.
  rewrite Hid. f_equal.
  now destruct (writeFiles_config homedir (TasksDir listDirs) st) as (_ & _ & ->).
Qed.

(** The latest modification time kept for a list is the greatest among
    its well-formed task files, and not below the epoch. *)
Lemma scan_files_lastModified taskFiles :
  snd (scan_files taskFiles)
  = fold_left Z.max (List.map mtime (List.filter accepted taskFiles)) 0%Z.
Proof.
  unfold scan_files. generalize (@nil json) as ts, 0%Z as lm.
  induction taskFiles as [|f l IH]; intros ts lm; [reflexivity|].
  cbn [fold_left List.filter]. unfold scan_file at 2, accepted, malformed, is_task_file.
  destruct (endsWith (fname f) ".json"); simpl; [|apply IH].
  destruct (truthy (readTaskFile f)); simpl; [|apply IH].
  rewrite IH. f_equal. destruct (mtime f >? lm)%Z eqn:Hgt; lia.
Qed.
End CacheFacts.

(** * More on the server *)

(** ** Strings and paths *)

Lemma includes_cons c s sub :
  includes (String c s) sub = String.prefix sub (String c s) || includes s sub.
Proof. reflexivity. Qed.

Lemma includes_empty s : includes s EmptyString = true.
Proof. destruct s; reflexivity. Qed.

Lemma prefix_app sub a b :
  String.prefix sub a = true -> String.prefix sub (a ++ b)%string = true.
Proof.
  revert a. induction sub as [|c sub IH]; intros a Hp.
  - destruct a, b; reflexivity.
  - destruct a as [|x a]; [destruct sub; discriminate|].
    simpl in *. destruct (ascii_dec c x); [auto|discriminate].
Qed.

Lemma includes_app_r a b sub :
  includes b sub = true -> includes (a ++ b)%string sub = true.
Proof.
  intros Hb. induction a as [|c a IH]; [exact Hb|].
  change (String c a ++ b)%string with (String c (a ++ b)%string).
  rewrite includes_cons, IH. apply orb_true_r.
Qed.

Lemma includes_app_l a b sub :
  includes a sub = true -> includes (a ++ b)%string sub = true.
Proof.
  induction a as [|c a IH]; intros Ha.
  - destruct sub; [apply includes_empty|].
    destruct b; simpl in Ha; discriminate.
  - change (String c a ++ b)%string with (String c (a ++ b)%string).
    rewrite includes_cons in *. apply orb_true_iff in Ha as [Hp|Hi].
    + change (String c (a ++ b)%string) with (String c a ++ b)%string.
      rewrite (prefix_app _ _ _ Hp). reflexivity.
    + rewrite (IH Hi). apply orb_true_r.
Qed.

Lemma rsplit_cons c p :
  rsplit (String c p)
  = match fst (rsplit p) with
    | Some d => (Some (String c d), snd (rsplit p))
    | None => if Ascii.eqb c "/" then (Some EmptyString, snd (rsplit p))
              else (None, String c (snd (rsplit p)))
    end.
Proof. simpl. destruct (rsplit p) as [[d|] b]; reflexivity. Qed.

(** A path made of [dir] and a name without slash splits into the two. *)
Lemma rsplit_join dir name :
  includes name "/" = false -> rsplit (path_join dir name) = (Some dir, name).
Proof.
  intros Hn. unfold path_join.
  assert (Hname : rsplit name = (None, name)).
  { induction name as [|c name IH]; [reflexivity|].
    rewrite includes_cons in Hn. apply orb_false_iff in Hn as [Hc Hn].
    rewrite rsplit_cons, (IH Hn). cbn [fst snd].
    destruct (Ascii.eqb c "/") eqn:Heq; [|reflexivity].
    apply Ascii.eqb_eq in Heq. subst c. simpl in Hc.
    destruct name; discriminate. }
  induction dir as [|c dir IH].
  - change (rsplit (String "/" name) = (Some EmptyString, name)).
    rewrite rsplit_cons, Hname. reflexivity.
  - change (rsplit (String c (dir ++ "/" ++ name)%string) = (Some (String c dir), name)).
    rewrite rsplit_cons, IH. reflexivity.
Qed.

Lemma basename_join dir name :
  includes name "/" = false -> basename (path_join dir name) = name.
Proof. intros Hn. unfold basename. now rewrite rsplit_join. Qed.

Lemma dirname_join dir name :
  includes name "/" = false -> dir <> EmptyString ->
  dirname (path_join dir name) = dir.
Proof.
  intros Hn Hd. unfold dirname. rewrite rsplit_join by assumption.
  destruct dir; [congruence|reflexivity].
Qed.

(** The list of an event on a file of a list directory is that directory. *)
Lemma list_of_path base name file :
  includes name "/" = false -> includes file "/" = false ->
  basename (dirname (path_join (path_join base name) file)) = name.
Proof.
  intros Hn Hf. rewrite dirname_join; [now apply basename_join|assumption|].
  unfold path_join. destruct base; discriminate.
Qed.

(** ** The lists of a pass, continued *)

Lemma fold_max_ge_init l : forall m, (m <= fold_left Z.max l m)%Z.
Proof.
  induction l as [|x l IH]; intros m; simpl; [lia|].
  specialize (IH (Z.max m x)). lia.
Qed.

Lemma fold_max_ge_elem l : forall m x, In x l -> (x <= fold_left Z.max l m)%Z.
Proof.
  induction l as [|y l IH]; intros m x Hin; [destruct Hin|].
  simpl. destruct Hin as [-> | Hin]; [|now apply IH].
  pose proof (fold_max_ge_init l (Z.max m x)). lia.
Qed.

Lemma fold_max_attained l : forall m,
  fold_left Z.max l m = m \/ In (fold_left Z.max l m) l.
Proof.
  induction l as [|y l IH]; intros m; simpl; [now left|].
  destruct (IH (Z.max m y)) as [Heq|Hin]; [|now right; right].
  rewrite Heq. destruct (Z.max_spec m y) as [[_ ->]|[_ ->]]; auto.
Qed.

Lemma sublist_map_filter {A B : Type} (f : A -> B) (p : A -> bool) l :
  sublist (List.map f (List.filter p l)) (List.map f l).
Proof.
  induction l as [|x l IH]; simpl; [constructor|].
  destruct (p x); simpl; now constructor.
Qed.

Lemma kept_names_sublist listDirs :
  sublist (List.map (fun k => dname (fst k)) (kept listDirs)) (List.map dname listDirs).
Proof.
  induction listDirs as [|dir l IH]; [constructor|].
  rewrite kept_cons. unfold kept at 1; simpl.
  destruct (scanned dir); simpl; now constructor.
Qed.

Section MoreLists.
Context `{Builtins} (homedir : string).

(** The list published under the name of a directory is made of the scan
    of that directory. *)
Lemma published_list_shape dirName listDirs dir taskFiles tl :
  List.NoDup (List.map dname listDirs) ->
  In dir listDirs -> entries dir = Some taskFiles ->
  In tl (taskLists (snapshot_of homedir dirName (kept listDirs))) ->
  listId tl = dname dir ->
  tl = to_list (dir, scan_files taskFiles).
Proof.
  intros Hnd Hin Hent Htl Hid.
  apply In_taskLists in Htl as ([dir' r] & Hk & ->).
  apply elem_of_kept in Hk as [Hin' Hs]. simpl in Hid.
  assert (dir' = dir) as -> by (eapply NoDup_map_eq; eauto).
  apply scanned_Some in Hs as (_ & fs & Hfs & -> & _).
  rewrite Hent in Hfs. now inversion Hfs.
Qed.

(** X1: the [lastModified] of a published list is the latest modification
    time among the well-formed task files of its directory, and the epoch
    when all of them are older than the epoch; files that are malformed
    or are no task files do not count. *)
Theorem X1_lastModified_is_latest_mtime st listDirs dir taskFiles :
  List.NoDup (List.map dname listDirs) ->
  In dir listDirs -> entries dir = Some taskFiles ->
  exists d,
    dataFile (writeFiles homedir (TasksDir listDirs) st) = Some d
    /\ forall tl, In tl (taskLists d) -> listId tl = dname dir ->
         (0 <= lastModified tl)%Z
         /\ (forall f, In f taskFiles -> accepted f = true ->
                       (mtime f <= lastModified tl)%Z)
         /\ (lastModified tl = 0%Z
             \/ exists f, In f taskFiles /\ accepted f = true
                          /\ mtime f = lastModified tl).
Proof.
  intros Hnd Hin Hent. eexists. split; [apply writeFiles_TasksDir|].
  intros tl Htl Hid.
  rewrite (published_list_shape _ _ _ _ _ Hnd Hin Hent Htl Hid).
  cbn [to_list lastModified fst snd]. rewrite scan_files_lastModified.
  split; [apply fold_max_ge_init|]. split.
  - intros f Hf Hacc. apply fold_max_ge_elem, in_map, filter_In. auto.
  - destruct (fold_max_attained (List.map mtime (List.filter accepted taskFiles)) 0)
      as [Heq|Hmax]; [now left|right].
    apply in_map_iff in Hmax as (f & Hm & Hf). apply filter_In in Hf as [Hf Hacc].
    eauto.
Qed.

(** X2: lists that were last modified at the same time are published in
    the order in which their directories are listed. *)
Theorem X2_recency_ties_keep_listing_order st listDirs d t :
  dataFile (writeFiles homedir (TasksDir listDirs) st) = Some d ->
  List.filter (fun tl => Z.eqb (lastModified tl) t) (taskLists d)
  = List.filter (fun tl => Z.eqb (lastModified tl) t) (List.map to_list (kept listDirs))
  /\ sublist
       (List.map listId (List.filter (fun tl => Z.eqb (lastModified tl) t) (taskLists d)))
       (List.map dname listDirs).
Proof.
  intros Hd. rewrite writeFiles_TasksDir in Hd. inversion Hd; subst d.
  unfold snapshot_of; cbn [taskLists].
  assert (Heq : List.filter (fun tl => Z.eqb (lastModified tl) t)
                  (Array_sort (by_recency lastModified) (List.map to_list (kept listDirs)))
                = List.filter (fun tl => Z.eqb (lastModified tl) t)
                    (List.map to_list (kept listDirs))).
  { apply Array_sort_stable. intros x y Hx%Z.eqb_eq Hy%Z.eqb_eq.
    rewrite by_recency_after. apply Z.ltb_ge. lia. }
  split; [exact Heq|]. rewrite Heq.
  etransitivity; [apply sublist_map_filter|].
  rewrite map_map. apply kept_names_sublist.
Qed.
End MoreLists.

(** ** The cache, continued *)

Section MoreCache.
Context `{Builtins} (cwd homedir : string).

(** X3: when a task file of a published list is removed, the file written
    to the archive holds the list id and the tasks that the last pass
    published for that list, in the published order. *)
Theorem X3_archive_holds_last_published st listDirs d tl file now clock :
  List.NoDup (List.map dname listDirs) ->
  dataFile (writeFiles homedir (TasksDir listDirs) st) = Some d ->
  In tl (taskLists d) ->
  includes (listId tl) "/" = false -> includes file "/" = false ->
  ignored_path (path_join (path_join (TASKS_DIR homedir) (listId tl)) file) = false ->
  archived (on_unlink now clock
              (path_join (path_join (TASKS_DIR homedir) (listId tl)) file)
              (writeFiles homedir (TasksDir listDirs) st))
  = {| archive_name := (listId tl, fst clock);
       archive_id := listId tl;
       archivedAt := snd clock;
       archive_tasks := tasks tl |}
    :: archived st.
Proof.
  intros Hnd Hd Htl Hn Hf Hi.
  apply (archive_holds_last_published homedir listDirs st d); auto.
  now apply list_of_path.
Qed.

Lemma writeFiles_cache_any tree st :
  taskDataCache (writeFiles homedir tree st)
  = match tree with
    | TasksDir listDirs => fold_left cache_insert (kept listDirs) (taskDataCache st)
    | _ => taskDataCache st
    end.
Proof.
  destruct tree as [| |listDirs]; [reflexivity|reflexivity|apply writeFiles_cache].
Qed.

Lemma fold_insert_all (P : cached -> Prop) ks : forall cache,
  (forall id e, cache !! id = Some e -> P e) ->
  (forall k, In k ks -> P (entry_of k)) ->
  forall id e, fold_left cache_insert ks cache !! id = Some e -> P e.
Proof.
  induction ks as [|k ks IH]; intros cache Hc Hks id e; simpl; [apply Hc|].
  apply IH; [|intros k' Hk'; apply Hks; now right].
  intros id' e'. unfold cache_insert. rewrite lookup_insert.
  case_decide as Heq.
  - intros Hs. inversion Hs; subst e'. apply Hks. now left.
  - apply Hc.
Qed.

Lemma kept_entry_nonempty listDirs k :
  In k (kept listDirs) -> cached_tasks (entry_of k) <> [].
Proof.
  destruct k as [dir r]. intros Hk. apply elem_of_kept in Hk as [_ Hs].
  apply scanned_Some in Hs as (_ & fs & _ & -> & Hne).
  simpl. rewrite scan_files_tasks. intros Hnil. apply Hne.
  now apply (Array_sort_nil by_id).
Qed.

Lemma writeFiles_cache_nonempty tree st :
  (forall id e, taskDataCache st !! id = Some e -> cached_tasks e <> []) ->
  forall id e, taskDataCache (writeFiles homedir tree st) !! id = Some e ->
               cached_tasks e <> [].
Proof.
  intros Hst. rewrite writeFiles_cache_any. destruct tree as [| |listDirs]; auto.
  apply (fold_insert_all (fun e => cached_tasks e <> [])); [exact Hst|].
  intros k. apply kept_entry_nonempty.
Qed.

Lemma step_cache e st id entry :
  taskDataCache (step cwd e st) !! id = Some entry ->
  taskDataCache st !! id = Some entry.
Proof.
  destruct e as [now p|now p|now clock p|now|now body|now f]; simpl;
    unfold on_add, on_change, on_unlink, on_config_change, post_config.
  - destruct (ignored_path p); auto.
  - destruct (ignored_path p); auto.
  - destruct (ignored_path p); [auto|]. simpl.
    destruct (taskDataCache st !! basename (dirname p)) as [c|] eqn:Hc; [|auto].
    destruct (0 <? List.length (cached_tasks c))%nat; [|auto]. simpl.
    intros Hl. apply lookup_delete_Some in Hl. tauto.
  - auto.
  - destruct body as [|input]; [auto|].
    destruct (validateConfig (currentConfig st) input); auto.
  - auto.
Qed.

(** X4: in every state of the process, every entry of the cache holds at
    least one task, so that the unlink handler archives whenever it finds
    an entry. *)
Theorem X4_cache_entries_hold_tasks st id entry :
  reachable cwd homedir st ->
  taskDataCache st !! id = Some entry -> cached_tasks entry <> [].
Proof.
  intros Hr. revert id entry.
  induction Hr as [file tree|e st Hr IH|now tree st Hr IH]; intros id entry.
  - unfold main. apply writeFiles_cache_nonempty. simpl.
    intros id' e'. rewrite lookup_empty. discriminate.
  - intros Hl. eapply IH, step_cache, Hl.
  - unfold timer_fires. destruct (writeDebounceTimer st) as [due|]; [|apply IH].
    destruct (due <=? now)%Z; [|apply IH].
    apply writeFiles_cache_nonempty. exact IH.
Qed.

(** X5: a pass deletes nothing from the cache: an entry whose list is not
    in the output of the pass, because its directory is gone or holds no
    readable task, or because the scan failed, stays as it was. *)
Theorem X5_pass_keeps_other_entries tree st id entry :
  taskDataCache st !! id = Some entry ->
  (forall d tl, pass_output homedir tree (projectDir (currentConfig st)) = Some d ->
                In tl (taskLists d) -> listId tl <> id) ->
  taskDataCache (writeFiles homedir tree st) !! id = Some entry.
Proof.
  intros Hc Hout. rewrite writeFiles_cache_any.
  destruct tree as [| |listDirs]; try exact Hc.
  rewrite fold_insert_other; [exact Hc|].
  intros Hin. apply in_map_iff in Hin as (k & Hk & Hin).
  apply (Hout _ (to_list k) eq_refl); [|exact Hk].
  apply In_taskLists. eauto.
Qed.

(** X6: a pass whose scan of the tasks directory fails leaves the
    published snapshot, the cache, the configuration and the archive as
    they were; it is counted, the timer is cleared, and nothing runs again
    until a new request arrives. *)
Theorem X6_failed_pass_keeps_snapshot st due now :
  writeDebounceTimer st = Some due -> (due <= now)%Z ->
  let st' := timer_fires homedir now TasksDirError st in
  dataFile st' = dataFile st
  /\ taskDataCache st' = taskDataCache st
  /\ currentConfig st' = currentConfig st
  /\ configFile st' = configFile st
  /\ archived st' = archived st
  /\ passes st' = S (passes st)
  /\ writeDebounceTimer st' = None
  /\ forall now' tree, timer_fires homedir now' tree st' = st'.
Proof.
  intros Ht Hdue st'. subst st'. unfold timer_fires. rewrite Ht.
  apply Z.leb_le in Hdue. rewrite Hdue. repeat split.
Qed.
End MoreCache.

(** ** The summaries, continued *)

Lemma filter_length_perm {A : Type} (p : A -> bool) l l' :
  Permutation l l' -> List.length (List.filter p l) = List.length (List.filter p l').
Proof.
  induction 1 as [|x l l' _ IH|x y l|l l' l'' _ IH1 _ IH2]; simpl.
  - reflexivity.
  - destruct (p x); simpl; congruence.
  - destruct (p x), (p y); reflexivity.
  - congruence.
Qed.

Lemma status_is_exclusive s s' t :
  s <> s' -> status_is s t = true -> status_is s' t = false.
Proof.
  unfold status_is. intros Hne.
  destruct (prop "status" t) as [[| | |x| |]|]; try discriminate.
  intros Hs%String.eqb_eq. subst x. now apply String.eqb_neq.
Qed.

Lemma three_filters_length {A : Type} (p q r : A -> bool) l :
  (forall x, p x = true -> q x = false /\ r x = false) ->
  (forall x, q x = true -> r x = false) ->
  (List.length (List.filter p l) + List.length (List.filter q l)
   + List.length (List.filter r l) <= List.length l)%nat.
Proof.
  intros Hp Hq. induction l as [|x l IH]; simpl; [lia|].
  destruct (p x) eqn:Hpx.
  - destruct (Hp x Hpx) as [-> ->]. simpl. lia.
  - destruct (q x) eqn:Hqx.
    + rewrite (Hq x Hqx). simpl. lia.
    + destruct (r x); simpl; lia.
Qed.

Section MoreSummaries.
Context `{Builtins} (cwd homedir : string).

(** X7: in every published snapshot, the summary at the position of a
    list counts the pending, in-progress and completed tasks of that list
    and carries its [lastModified]; the three counts add up to at most
    [taskCount], the tasks with another status, or none, making the
    difference. *)
Theorem X7_summary_counts_match_list st d :
  reachable cwd homedir st -> dataFile st = Some d ->
  Forall2 (fun tl s =>
             pendingCount s = List.length (List.filter (status_is "pending") (tasks tl))
             /\ inProgressCount s
                = List.length (List.filter (status_is "in_progress") (tasks tl))
             /\ completedCount s
                = List.length (List.filter (status_is "completed") (tasks tl))
             /\ sum_lastModified s = lastModified tl
             /\ (pendingCount s + inProgressCount s + completedCount s <= taskCount s)%nat)
    (taskLists d) (availableLists d).
Proof.
  intros Hr Hd.
  destruct (published_by_a_pass cwd homedir st d Hr Hd) as (tree & dir & Hp).
  destruct (pass_output_snapshot homedir tree dir d Hp) as [ks ->].
  unfold snapshot_of; cbn [taskLists availableLists].
  set (stamp := fun k : dirent * (list json * Z) => snd (snd k)).
  rewrite (Array_sort_map to_list (by_recency stamp) (by_recency lastModified))
    by reflexivity.
  rewrite (Array_sort_map (to_summary homedir) (by_recency stamp)
             (by_recency sum_lastModified)) by reflexivity.
  apply Forall2_map_same. intros [dir' [ts lm]]; simpl.
  rewrite !(filter_length_perm _ _ _ (Array_sort_perm by_id ts)).
  repeat split.
  apply three_filters_length.
  - intros t Ht. split; eapply status_is_exclusive; try exact Ht; discriminate.
  - intros t Ht. eapply status_is_exclusive; try exact Ht; discriminate.
Qed.
End MoreSummaries.

(** ** The archive directory *)

Section ArchiveDir.
Context `{Builtins} (homedir : string).

Lemma ignored_of_archive filePath :
  includes filePath ".archive" = true -> ignored_path filePath = true.
Proof. intros Hi. unfold ignored_path. rewrite Hi. apply orb_true_r. Qed.

Lemma handlers_ignore filePath now clock st :
  ignored_path filePath = true ->
  on_add now filePath st = st /\ on_change now filePath st = st
  /\ on_unlink now clock filePath st = st.
Proof. intros Hi. unfold on_add, on_change, on_unlink. now rewrite Hi. Qed.

(** X8: what happens under the archive directory is invisible: an event
    of the watcher on any path under [ARCHIVE_DIR] changes nothing and
    schedules nothing, and no list named [.archive] is ever published,
    whatever the directory holds. *)
Theorem X8_archive_directory_is_invisible st rest now clock listDirs :
  let filePath := path_join (ARCHIVE_DIR homedir) rest in
  (on_add now filePath st = st /\ on_change now filePath st = st
   /\ on_unlink now clock filePath st = st)
  /\ exists d, dataFile (writeFiles homedir (TasksDir listDirs) st) = Some d
               /\ forall tl, In tl (taskLists d) -> listId tl <> ".archive".
Proof.
  intros filePath. split.
  - apply handlers_ignore, ignored_of_archive. subst filePath.
    unfold ARCHIVE_DIR, path_join. apply includes_app_l.
    apply includes_app_r, includes_app_r. reflexivity.
  - eexists. split; [apply writeFiles_TasksDir|].
    intros tl Htl Hid. apply In_taskLists in Htl as ([dir r] & Hk & ->).
    apply elem_of_kept in Hk as [_ Hs]. apply scanned_Some in Hs as [Hskip _].
    simpl in Hid. unfold skipped in Hskip. rewrite Hid in Hskip.
    apply orb_false_iff in Hskip as [_ Hne]. discriminate.
Qed.

(** X9: the watcher ignores every path in which [.archive] occurs, not
    only the archive directory: a list directory whose name merely
    contains [.archive] is scanned and published like any other, but the
    removal, the addition and the change of its task files archive
    nothing and schedule no regeneration. *)
Theorem X9_archive_in_a_name_mutes_the_watcher st listDirs dir taskFiles file now clock :
  includes (dname dir) ".archive" = true -> dname dir <> ".archive" ->
  In dir listDirs -> isDirectory dir = true -> entries dir = Some taskFiles ->
  scan_order taskFiles <> [] ->
  let filePath := path_join (path_join (TASKS_DIR homedir) (dname dir)) file in
  (exists d tl, dataFile (writeFiles homedir (TasksDir listDirs) st) = Some d
                /\ In tl (taskLists d) /\ listId tl = dname dir)
  /\ on_unlink now clock filePath (writeFiles homedir (TasksDir listDirs) st)
     = writeFiles homedir (TasksDir listDirs) st
  /\ on_add now filePath st = st
  /\ on_change now filePath st = st.
Proof.
  intros Hinc Hne Hin Hdir Hent Hso filePath.
  assert (Hi : ignored_path filePath = true).
  { apply ignored_of_archive. subst filePath. unfold path_join at 1.
    apply includes_app_l. unfold path_join at 1.
    apply includes_app_r, includes_app_r. exact Hinc. }
  split.
  - destruct (published_list homedir (projectDir (currentConfig st)) listDirs dir taskFiles)
      as (tl & Htl & Hid & _); auto.
    + unfold skipped. rewrite Hdir. simpl. now apply String.eqb_neq.
    + eexists. exists tl. split; [apply writeFiles_TasksDir|]. auto.
  - split; [|split]; now apply handlers_ignore.
Qed.
End ArchiveDir.

(** ** The configuration, continued *)

Section MoreConfig.
Context `{Builtins} (cwd homedir : string).

Lemma loadConfig_stable file : stable cwd (loadConfig cwd file).
Proof.
  assert (Hdef : stable cwd (DEFAULT_CONFIG cwd))
    by (repeat split; auto; try discriminate; now right).
  destruct file as [| |[|parsed]]; try exact Hdef.
  assert (Hfields : stable cwd {| projectDir := load_projectDir cwd parsed;
                                  pollInterval := load_pollInterval cwd parsed;
                                  agentNames := load_agentNames cwd parsed |}).
  { split; [|split; [|split]]; simpl.
    - unfold load_projectDir.
      destruct (prop "projectDir" parsed) as [[| | |s| |]|]; try (now right).
      destruct (str_empty s) eqn:Hs; simpl; [now right|now left].
    - rewrite <- (loadConfig_pollInterval cwd).
      apply (loadConfig_in_range cwd (Text (Doc parsed))).
    - unfold load_agentNames.
      destruct (prop "agentNames" parsed) as [[| | | |items|]|]; try discriminate.
      destruct items as [|a l]; simpl; [discriminate|].
      destruct (is_nonempty_string a && forallb is_nonempty_string l); discriminate.
    - unfold load_agentNames.
      destruct (prop "agentNames" parsed) as [[| | | |items|]|]; try reflexivity.
      destruct (negb (Nat.eqb (List.length items) 0) && forallb is_nonempty_string items)
        eqn:Hc; [|reflexivity].
      apply andb_true_iff in Hc as [_ Hc]. now apply forallb_string_of. }
  destruct parsed; exact Hfields.
Qed.

Lemma load_save_stable c : stable cwd c -> loadConfig cwd (saveConfig c) = c.
Proof.
  intros (Hp & Hr & Hne & Hall). destruct c as [p n names]; simpl in *.
  destruct n as [| | |q]; try discriminate.
  unfold in_range, num_ge in Hr; simpl in Hr.
  unfold loadConfig, saveConfig, config_to_json; simpl.
  unfold load_projectDir, load_pollInterval, load_agentNames; simpl.
  rewrite Hr; simpl.
  rewrite forallb_nonempty, Hall, map_string_of, length_map.
  assert (Hproj : (if negb (str_empty p) then p else cwd) = p).
  { destruct Hp as [Hp|Hp]; [now rewrite Hp|]. destruct (str_empty p); simpl; congruence. }
  rewrite Hproj. destruct names; [congruence|reflexivity].
Qed.

Lemma validateConfig_stable cur input c :
  stable cwd cur -> validateConfig cur input = Ok c -> stable cwd c.
Proof.
  intros (Hp & Hr & Hne & Hall) Hv.
  pose proof (validateConfig_cases cur input) as Hc. rewrite Hv in Hc.
  destruct Hc as (Hvalid & -> & _).
  unfold updated, stable; simpl. split; [|split; [|split]].
  - unfold new_projectDir.
    destruct (prop "projectDir" input) as [v|] eqn:Hv1; [|assumption].
    specialize (Hvalid "projectDir" v ltac:(simpl; auto) Hv1).
    change (negb (is_blank v) = true) in Hvalid.
    destruct v; try discriminate. simpl in *. left. now apply negb_true_iff.
  - unfold new_pollInterval.
    destruct (prop "pollInterval" input) as [v|] eqn:Hv2; [|assumption].
    destruct (valid_pollInterval_inv v (Hvalid "pollInterval" v ltac:(simpl; auto) Hv2))
      as (n & -> & Hn). exact Hn.
  - unfold new_agentNames.
    destruct (prop "agentNames" input) as [v|] eqn:Hv3; [|assumption].
    specialize (Hvalid "agentNames" v ltac:(simpl; auto) Hv3).
    change (valid_agentNames v = true) in Hvalid.
    destruct v as [| | | |[|a l]|]; try discriminate.
  - unfold new_agentNames.
    destruct (prop "agentNames" input) as [v|] eqn:Hv3; [|assumption].
    specialize (Hvalid "agentNames" v ltac:(simpl; auto) Hv3).
    change (valid_agentNames v = true) in Hvalid.
    destruct v as [| | | |items|]; try discriminate.
    apply andb_true_iff in Hvalid as [_ Hnb]. clear -Hnb.
    induction items as [|a l IH]; simpl in *; [reflexivity|].
    apply andb_true_iff in Hnb as [Ha Hl]. rewrite IH by assumption.
    destruct a; simpl in *; try discriminate. now rewrite Ha.
Qed.

Lemma reachable_stable st : reachable cwd homedir st -> stable cwd (currentConfig st).
Proof.
  induction 1 as [file tree|e st Hr IH|now tree st Hr IH].
  - unfold main. destruct (writeFiles_config homedir tree
      {| currentConfig := loadConfig cwd file;
         configFile := match file with Absent => saveConfig (loadConfig cwd file)
                                     | _ => file end;
         taskDataCache := ∅; writeDebounceTimer := None; archived := [];
         dataFile := None; passes := 0 |}) as [-> _].
    apply loadConfig_stable.
  - destruct e as [now p|now p|now clock p|now|now body|now f]; simpl.
    + unfold on_add. destruct (ignored_path p); assumption.
    + unfold on_change. destruct (ignored_path p); assumption.
    + now rewrite on_unlink_config.
    + apply loadConfig_stable.
    + destruct body as [|input]; [assumption|].
      pose proof (post_config_cases now input st) as Hp.
      destruct (validateConfig (currentConfig st) input) as [c|e|] eqn:Hv;
        rewrite Hp; simpl; try assumption.
      eapply validateConfig_stable; eauto.
    + assumption.
  - now rewrite timer_fires_config.
Qed.

(** X10: when the process runs in a directory with a non-empty path, its
    live configuration is well formed in every state: a non-empty
    [projectDir], a [pollInterval] between 500 and 60000, at least one
    agent name and no empty agent name; and the file [saveConfig] writes
    of it loads back as the same configuration, in any directory. *)
Theorem X10_live_config_is_well_formed st :
  str_empty cwd = false -> reachable cwd homedir st ->
  str_empty (projectDir (currentConfig st)) = false
  /\ in_range (pollInterval (currentConfig st)) = true
  /\ agentNames (currentConfig st) <> []
  /\ Forall (fun n => n <> EmptyString) (agentNames (currentConfig st))
  /\ forall cwd', loadConfig cwd' (saveConfig (currentConfig st)) = currentConfig st.
Proof.
  intros Hcwd Hr.
  pose proof (reachable_loadable cwd homedir Hcwd st Hr) as Hl.
  destruct Hl as (Hp & Hrange & Hne & Hall).
  split; [exact Hp|]. split; [exact Hrange|]. split; [exact Hne|]. split.
  - clear -Hall. induction (agentNames (currentConfig st)) as [|a l IH];
      simpl in *; constructor.
    + destruct a; [discriminate|congruence].
    + apply IH. now apply andb_true_iff in Hall as [_ Hl].
  - intros cwd'. apply load_save. repeat split; assumption.
Qed.

Lemma load_save_load file :
  loadConfig cwd (saveConfig (loadConfig cwd file)) = loadConfig cwd file.
Proof. apply load_save_stable, loadConfig_stable. Qed.

(** X11: loading is idempotent through the file: whatever the
    configuration file holds, missing, unreadable or broken, the
    configuration [loadConfig] makes of it, once saved, loads back as
    itself. *)
Theorem X11_load_save_load file :
  loadConfig cwd (saveConfig (loadConfig cwd file)) = loadConfig cwd file.
Proof. apply load_save_load. Qed.

Lemma step_config_cases e st :
  (forall now f, e <> Edit now f) ->
  (currentConfig (step cwd e st) = currentConfig st
   /\ configFile (step cwd e st) = configFile st)
  \/ (currentConfig (step cwd e st) = loadConfig cwd (configFile st)
      /\ configFile (step cwd e st) = configFile st)
  \/ (exists input, validateConfig (currentConfig st) input
                    = Ok (currentConfig (step cwd e st))
                    /\ configFile (step cwd e st)
                       = saveConfig (currentConfig (step cwd e st))).
Proof.
  intros Hne. destruct e as [now p|now p|now clock p|now|now body|now f]; simpl.
  - left. unfold on_add. destruct (ignored_path p); auto.
  - left. unfold on_change. destruct (ignored_path p); auto.
  - left. rewrite on_unlink_config. split; [reflexivity|].
    unfold on_unlink. destruct (ignored_path p); [reflexivity|]. simpl.
    destruct (taskDataCache st !! basename (dirname p)) as [c|]; [|reflexivity].
    destruct (0 <? List.length (cached_tasks c))%nat; reflexivity.
  - right; left. auto.
  - destruct body as [|input]; [left; auto|].
    pose proof (post_config_cases now input st) as Hp.
    destruct (validateConfig (currentConfig st) input) as [c|e|] eqn:Hv;
      rewrite Hp; simpl; [|left; auto|left; auto].
    right; right. exists input. auto.
  - exfalso. eapply Hne. reflexivity.
Qed.

(** X12: in every state in which the watcher has reported the edits of
    the configuration file, the live configuration is the one a restart
    in the same directory would load from the file: after the start,
    with or without a file and a file to migrate, after a reload, and
    after every API write, accepted or not. *)
Theorem X12_live_config_is_what_the_file_loads st :
  settled cwd homedir st -> loadConfig cwd (configFile st) = currentConfig st.
Proof.
  induction 1 as [old file tree|e st Hs IH Hne|now now' f st Hs IH|now tree st Hs IH].
  - unfold start, main.
    destruct (writeFiles_config homedir tree
      {| currentConfig := loadConfig cwd (migrateOldConfig old file);
         configFile := match migrateOldConfig old file with
                       | Absent => saveConfig (loadConfig cwd (migrateOldConfig old file))
                       | _ => migrateOldConfig old file
                       end;
         taskDataCache := ∅; writeDebounceTimer := None; archived := [];
         dataFile := None; passes := 0 |}) as (-> & -> & _).
    simpl. destruct (migrateOldConfig old file) eqn:Hm; try reflexivity.
    apply load_save_load.
  - destruct (step_config_cases e st Hne) as [[-> ->]|[[-> ->]|(input & Hv & ->)]].
    + exact IH.
    + reflexivity.
    + apply load_save_stable. eapply validateConfig_stable; [|exact Hv].
      rewrite <- IH. apply loadConfig_stable.
  - reflexivity.
  - rewrite timer_fires_config.
    unfold timer_fires. destruct (writeDebounceTimer st) as [due|]; [|exact IH].
    destruct (due <=? now)%Z; [|exact IH].
    now destruct (writeFiles_config homedir tree (set_timer st None)) as (_ & -> & _).
Qed.
End MoreConfig.

Section MoreWrites.
Context `{Builtins} (cwd homedir : string).

Lemma updated_without_fields input cur :
  (forall k, In k config_fields -> prop k input = None) -> updated input cur = cur.
Proof.
  intros Hnone. unfold updated, new_projectDir, new_pollInterval, new_agentNames.
  rewrite (Hnone "projectDir"), (Hnone "pollInterval"), (Hnone "agentNames")
    by (simpl; auto).
  destruct cur; reflexivity.
Qed.

(** X13: a body that is JSON but neither an object nor an array (null, a
    number, a string, a boolean) is answered 400 "Invalid JSON", like a
    body that is not JSON, and changes nothing; an array, and an object
    with none of the three fields, is accepted as an update without
    fields: the configuration stays, but the file is written again from
    it, which undoes an edit of the file that was not yet loaded, and a
    regeneration is scheduled. *)
Theorem X13_bodies_without_fields st now input :
  (match input with JObj _ | JArr _ => False | _ => True end ->
   post_config now (Doc input) st = (st, Status400 "Invalid JSON"))
  /\ post_config now NotJSON st = (st, Status400 "Invalid JSON")
  /\ (match input with JObj _ | JArr _ => True | _ => False end ->
      (forall k, In k config_fields -> prop k input = None) ->
      snd (post_config now (Doc input) st) = Status200 (currentConfig st)
      /\ currentConfig (fst (post_config now (Doc input) st)) = currentConfig st
      /\ configFile (fst (post_config now (Doc input) st)) = saveConfig (currentConfig st)
      /\ writeDebounceTimer (fst (post_config now (Doc input) st)) = Some (now + 300)%Z).
Proof.
  pose proof (post_config_cases now input st) as Hp.
  pose proof (validateConfig_cases (currentConfig st) input) as Hv.
  split; [|split; [reflexivity|]].
  - intros Hprim.
    destruct (validateConfig (currentConfig st) input) as [c|e|]; [| |exact Hp].
    + destruct Hv as (_ & _ & Hobj). destruct input; contradiction.
    + destruct Hv as (k & _ & _ & v & Hk & _). destruct input; try contradiction;
        discriminate.
  - intros Hobj Hnone.
    destruct (validateConfig (currentConfig st) input) as [c|e|].
    + destruct Hv as (_ & -> & _). rewrite Hp.
      rewrite (updated_without_fields input (currentConfig st) Hnone). auto.
    + destruct Hv as (k & _ & Hk & v & Hpk & _). rewrite (Hnone k Hk) in Hpk. discriminate.
    + destruct input; try contradiction. destruct Hv as (v & Hpk & _).
      rewrite (Hnone "pollInterval") in Hpk by (simpl; auto). discriminate.
Qed.

(** X14: after an accepted API write the new configuration is what a
    read returns and what the file holds, and until 300 ms have passed
    nothing is regenerated.  The watcher of the configuration file then
    reports the write of the process itself: the reload gives the same
    configuration, and a regeneration is requested again.  When the
    report comes within the 300 ms, one pass runs in all, 300 ms after
    the report; when it comes later, a pass runs 300 ms after the write
    and a second one 300 ms after the report.  The snapshot of the last
    pass carries the new [projectDir]. *)
Theorem X14_write_then_echo_then_pass st now input c tree_at echo :
  reachable cwd homedir st ->
  snd (post_config now (Doc input) st) = Status200 c ->
  (now <= echo)%Z ->
  let st1 := fst (post_config now (Doc input) st) in
  let st2 := deliver cwd homedir tree_at st1 (ConfigChange echo) in
  get_config st1 = c
  /\ configFile st1 = saveConfig c
  /\ (forall now', (now' < now + 300)%Z -> elapse homedir tree_at now' st1 = st1)
  /\ get_config st2 = c
  /\ configFile st2 = saveConfig c
  /\ writeDebounceTimer st2 = Some (echo + 300)%Z
  /\ passes st2 = (if (echo <? now + 300)%Z then passes st else S (passes st))
  /\ (forall now', (echo + 300 <= now')%Z ->
        let st3 := elapse homedir tree_at now' st2 in
        passes st3 = S (passes st2)
        /\ writeDebounceTimer st3 = None
        /\ get_config st3 = c
        /\ forall d, pass_output homedir (tree_at (echo + 300)%Z) (projectDir c) = Some d ->
                     dataFile st3 = Some d /\ data_projectDir d = projectDir c).
Proof.
  intros Hr Hc Hecho st1 st2.
  assert (Hstable : stable cwd c).
  { pose proof (post_config_cases now input st) as Hp.
    destruct (validateConfig (currentConfig st) input) as [c'|e|] eqn:Hv;
      rewrite Hp in Hc; try discriminate.
    simpl in Hc. inversion Hc; subst c'.
    eapply validateConfig_stable; [apply (reachable_stable cwd homedir); exact Hr|exact Hv]. }
  destruct (post_config_accepted st now input c Hc) as (_ & _ & Hst1).
  fold st1 in Hst1.
  assert (Ht : writeDebounceTimer st1 = Some (now + 300)%Z) by now rewrite Hst1.
  assert (Hcfg1 : currentConfig st1 = c) by now rewrite Hst1.
  assert (Hfile1 : configFile st1 = saveConfig c) by now rewrite Hst1.
  assert (Hp1 : passes st1 = passes st) by now rewrite Hst1.
  split; [exact Hcfg1|]. split; [exact Hfile1|]. split.
  { intros now' Hnow. eapply elapse_early; eassumption. }
  assert (Hmid : configFile (elapse homedir tree_at echo st1) = saveConfig c
                 /\ passes (elapse homedir tree_at echo st1)
                    = (if (echo <? now + 300)%Z then passes st else S (passes st))).
  { destruct (Z.ltb_spec echo (now + 300)) as [Hlt|Hge].
    - rewrite (elapse_early homedir tree_at echo st1 _ Ht Hlt). auto.
    - rewrite (elapse_due homedir tree_at echo st1 _ Ht Hge).
      rewrite writeFiles_passes.
      destruct (writeFiles_config homedir (tree_at (now + 300)%Z) (set_timer st1 None))
        as (_ & -> & _).
      simpl. now rewrite Hfile1, Hp1. }
  destruct Hmid as [Hfile Hpasses].
  assert (Hcfg2 : currentConfig st2 = c).
  { unfold st2, deliver. simpl. unfold on_config_change. simpl.
    rewrite Hfile. now apply load_save_stable. }
  assert (Hfile2 : configFile st2 = saveConfig c).
  { unfold st2, deliver. simpl. unfold on_config_change. simpl. exact Hfile. }
  assert (Ht2 : writeDebounceTimer st2 = Some (echo + 300)%Z) by reflexivity.
  assert (Hp2 : passes st2
                = (if (echo <? now + 300)%Z then passes st else S (passes st))).
  { unfold st2, deliver. rewrite step_passes. exact Hpasses. }
  split; [exact Hcfg2|]. split; [exact Hfile2|]. split; [exact Ht2|].
  split; [exact Hp2|].
  intros now' Hnow st3. subst st3.
  rewrite (elapse_due homedir tree_at now' st2 _ Ht2 Hnow).
  rewrite writeFiles_passes, writeFiles_timer.
  destruct (writeFiles_config homedir (tree_at (echo + 300)%Z) (set_timer st2 None))
    as (Hcfg & _ & _).
  unfold get_config. rewrite Hcfg. cbn [set_timer currentConfig passes writeDebounceTimer].
  rewrite Hcfg2.
  split; [reflexivity|]. split; [reflexivity|]. split; [reflexivity|].
  intros d Hd. rewrite writeFiles_dataFile.
  cbn [set_timer currentConfig]. rewrite Hcfg2, Hd. split; [reflexivity|].
  destruct (pass_output_snapshot homedir _ _ _ Hd) as [ks ->]. reflexivity.
Qed.
End MoreWrites.

(** ** The dashboard: texts *)

Lemma length_substring_0 n s :
  String.length (substring 0 n s) = Nat.min n (String.length s).
Proof.
  revert s. induction n as [|n IH]; intros [|c s]; simpl; try reflexivity.
  now rewrite IH.
Qed.

Lemma length_string_app (a b : string) :
  String.length (a ++ b)%string = (String.length a + String.length b)%nat.
Proof. induction a as [|c a IH]; simpl; [reflexivity|now rewrite IH]. Qed.

(** X15 ([truncate]).  With a limit of at least 3, which every call in
    [render] gives, the result never has more than [maxLen] characters: a
    string that fits is returned as it is, a longer one is cut to its
    first [maxLen - 3] characters followed by three dots, [maxLen]
    characters in all. *)
Theorem X15_truncate_fits (str : string) (maxLen : Z) :
  (3 <= maxLen)%Z ->
  (Z.of_nat (String.length (truncate str maxLen)) <= maxLen)%Z
  /\ ((Z.of_nat (String.length str) <= maxLen)%Z -> truncate str maxLen = str)
  /\ ((maxLen < Z.of_nat (String.length str))%Z ->
      truncate str maxLen
      = (substring 0 (Z.to_nat (maxLen - 3)) str ++ "...")%string
      /\ Z.of_nat (String.length (truncate str maxLen)) = maxLen).
Proof.
  intros Hmax. unfold truncate, slice0.
  destruct (Z.leb_spec (Z.of_nat (String.length str)) maxLen) as [Hfit|Hlong].
  - split; [exact Hfit|]. split; [reflexivity|lia].
  - destruct (Z.ltb_spec (maxLen - 3) 0) as [Hneg|_]; [lia|].
    rewrite Z.min_l by lia.
    assert (Hlen : Z.of_nat (String.length
              (substring 0 (Z.to_nat (maxLen - 3)) str ++ "...")%string) = maxLen).
    { rewrite length_string_app, length_substring_0. simpl. lia. }
    split; [lia|]. split; [lia|]. intros _. split; [reflexivity|exact Hlen].
Qed.

Lemma string_app_assoc (a b c : string) :
  ((a ++ b) ++ c)%string = (a ++ (b ++ c))%string.
Proof.
  induction a as [|x a IH]; [reflexivity|].
  change (String x ((a ++ b) ++ c)%string = String x (a ++ (b ++ c))%string).
  now rewrite IH.
Qed.

Lemma replace_all_app c rep (a b : string) :
  replace_all c rep (a ++ b)%string
  = (replace_all c rep a ++ replace_all c rep b)%string.
Proof.
  induction a as [|x a IH]; [reflexivity|].
  change (String x a ++ b)%string with (String x (a ++ b)%string).
  cbn [replace_all]. rewrite IH. now rewrite string_app_assoc.
Qed.

Lemma escapeHtml_each s : escapeHtml s = escape_each s.
Proof.
  unfold escapeHtml. induction s as [|c s IH]; [reflexivity|].
  cbn [replace_all escape_each]. rewrite !replace_all_app, IH.
  f_equal. unfold escape_char.
  destruct (Ascii.eqb c "&"); [reflexivity|].
  cbn. destruct (Ascii.eqb c "<"); [reflexivity|].
  change (String c "" ++ "")%string with (String c "").
  cbn [replace_all]. destruct (Ascii.eqb c ">"); reflexivity.
Qed.

Lemma chars_app (a b : string) : chars (a ++ b)%string = chars a ++ chars b.
Proof. induction a as [|c a IH]; simpl; [reflexivity|now rewrite IH]. Qed.

Lemma escape_each_inj a : forall b, escape_each a = escape_each b -> a = b.
Proof.
  induction a as [|x a IH]; intros [|y b] E.
  - reflexivity.
  - exfalso. simpl in E. unfold escape_char in E.
    destruct (Ascii.eqb y "&"); [discriminate|].
    destruct (Ascii.eqb y "<"); [discriminate|].
    destruct (Ascii.eqb y ">"); discriminate.
  - exfalso. simpl in E. unfold escape_char in E.
    destruct (Ascii.eqb x "&"); [discriminate|].
    destruct (Ascii.eqb x "<"); [discriminate|].
    destruct (Ascii.eqb x ">"); discriminate.
  - simpl in E. unfold escape_char in E.
    destruct (Ascii.eqb_spec x "&") as [->|Hx1];
      [|destruct (Ascii.eqb_spec x "<") as [->|Hx2];
        [|destruct (Ascii.eqb_spec x ">") as [->|Hx3]]];
    (destruct (Ascii.eqb_spec y "&") as [->|Hy1];
      [|destruct (Ascii.eqb_spec y "<") as [->|Hy2];
        [|destruct (Ascii.eqb_spec y ">") as [->|Hy3]]]);
    simpl in E; try discriminate;
    try (injection E as E; f_equal; apply IH; exact E);
    try (injection E as Exy E; congruence).
    injection E as -> E. f_equal. apply IH. exact E.
Qed.

(** X16 ([escapeHtml]).  The three replacements amount to one pass that
    writes [&amp;], [&lt;] and [&gt;] for the ampersand and the two angle
    brackets and keeps every other character, quotes included: an entity
    written for a bracket is not escaped a second time.  The result holds
    no angle bracket, and two different texts never give the same
    result. *)
Theorem X16_escapeHtml_is_one_pass (str : string) :
  escapeHtml str = escape_each str
  /\ ~ In "<"%char (chars (escapeHtml str))
  /\ ~ In ">"%char (chars (escapeHtml str))
  /\ (forall c rest, c <> "&"%char -> c <> "<"%char -> c <> ">"%char ->
      escapeHtml (String c rest) = String c (escapeHtml rest))
  /\ (forall other, escapeHtml str = escapeHtml other -> str = other).
Proof.
  split; [apply escapeHtml_each|].
  assert (Hno : forall s c, (c = "<" \/ c = ">")%char -> ~ In c (chars (escape_each s))).
  { intros s c Hc. induction s as [|x s IH]; simpl; [tauto|].
    rewrite chars_app, in_app_iff. intros [Hin|Hin]; [|exact (IH Hin)].
    unfold escape_char in Hin.
    destruct (Ascii.eqb_spec x "&") as [->|_];
      [|destruct (Ascii.eqb_spec x "<") as [->|Hx2];
        [|destruct (Ascii.eqb_spec x ">") as [->|Hx3]]];
      simpl in Hin; destruct Hc as [-> | ->];
      repeat (destruct Hin as [Hin|Hin]; [try discriminate; congruence|]);
      exact Hin. }
  rewrite !escapeHtml_each.
  split; [apply Hno; now left|]. split; [apply Hno; now right|].
  split.
  - intros c rest H1 H2 H3. rewrite !escapeHtml_each. simpl. unfold escape_char.
    apply Ascii.eqb_neq in H1, H2, H3. now rewrite H1, H2, H3.
  - intros other. rewrite escapeHtml_each. apply escape_each_inj.
Qed.

(** ** The dashboard: blockers and the available tasks *)

Lemma forallb_done allTasks items :
  forallb done (List.map (make_blocker allTasks) items) = true
  <-> Forall (completed_blocker allTasks) items.
Proof.
  induction items as [|id items IH]; simpl.
  - split; [constructor|reflexivity].
  - rewrite andb_true_iff, IH. unfold completed_blocker. split.
    + intros [Hd Hall]. constructor; [|exact Hall].
      destruct (find_task allTasks id) as [b|]; [eauto|discriminate].
    + intros Hall. inversion Hall as [|? ? (b & Hb & Hs) Hrest]; subst.
      split; [|exact Hrest]. now rewrite Hb.
Qed.

Lemma map_blocker_id allTasks items :
  List.map blocker_id (List.map (make_blocker allTasks) items) = items.
Proof. induction items as [|id items IH]; simpl; [reflexivity|now rewrite IH]. Qed.

(** X17 ([getBlockerStatus]).  For a task whose [blockedBy] is an array,
    the function returns one blocker for each id of the array, in order;
    the task is unblocked exactly when every id names a task of the list
    whose first holder is completed, so an id that names no task, or a
    task that is not completed, blocks it; and it is [ready] exactly when
    it is unblocked and the array is not empty. *)
Theorem X17_blocked_until_all_blockers_done task allTasks items :
  prop "blockedBy" task = Some (JArr items) ->
  exists bs, getBlockerStatus task allTasks = Some bs
    /\ List.map blocker_id (blockers bs) = items
    /\ (isBlocked bs = false <-> Forall (completed_blocker allTasks) items)
    /\ (ready bs = true <-> items <> [] /\ Forall (completed_blocker allTasks) items).
Proof.
  intros Hb. unfold getBlockerStatus. rewrite Hb. cbn [truthy negb].
  destruct items as [|id items].
  - exists not_blocked. cbn [Nat.eqb List.length not_blocked isBlocked blockers ready List.map].
    split; [reflexivity|]. split; [reflexivity|]. split.
    + split; [constructor|reflexivity].
    + split; [discriminate|]. intros [Hne _]. congruence.
  - cbn [List.length Nat.eqb]. eexists. split; [reflexivity|].
    cbn [isBlocked blockers ready]. split; [apply map_blocker_id|]. split.
    + rewrite negb_false_iff. apply forallb_done.
    + rewrite andb_true_iff, forallb_done. split.
      * intros [Hall _]. split; [discriminate|exact Hall].
      * intros [_ Hall]. split; [exact Hall|reflexivity].
Qed.

Lemma count_available_acc allTasks tasks : forall acc,
  match count_available allTasks tasks acc with
  | Some n =>
      n = (acc + List.length (List.filter (available_task allTasks) tasks))%nat
      /\ Forall (fun t => status_is "pending" t = true ->
                          getBlockerStatus t allTasks <> None) tasks
  | None =>
      exists t, In t tasks /\ status_is "pending" t = true
                /\ getBlockerStatus t allTasks = None
  end.
Proof.
  induction tasks as [|t tasks IH]; intros acc; simpl.
  - split; [lia|constructor].
  - unfold available_task at 1, isAvailable.
    destruct (status_is "pending" t) eqn:Hs; simpl.
    + destruct (getBlockerStatus t allTasks) as [bs|] eqn:Hb; [|eauto].
      specialize (IH (if negb (isBlocked bs) then S acc else acc)).
      destruct (count_available allTasks tasks _) as [n|].
      * destruct IH as [Hn Hall]. split.
        -- destruct (negb (isBlocked bs)); simpl; lia.
        -- constructor; [intros _; congruence|exact Hall].
      * destruct IH as (t' & Hin & Hp & Hn). eauto 6.
    + specialize (IH acc). destruct (count_available allTasks tasks acc) as [n|].
      * destruct IH as [Hn Hall]. split.
        -- destruct (getBlockerStatus t allTasks); simpl; exact Hn.
        -- constructor; [intros Hp; congruence|exact Hall].
      * destruct IH as (t' & Hin & Hp & Hn). eauto 6.
Qed.

Lemma filter_length_le {A : Type} (P Q : A -> bool) l :
  (forall x, P x = true -> Q x = true) ->
  (List.length (List.filter P l) <= List.length (List.filter Q l))%nat.
Proof.
  intros HPQ. induction l as [|x l IH]; simpl; [lia|].
  destruct (P x) eqn:HP.
  - rewrite (HPQ x HP). simpl. lia.
  - destruct (Q x); simpl; lia.
Qed.

(** X18 (the count of available tasks in [render]).  When the counting
    loop completes, the number shown as available is the number of
    pending tasks whose blockers [getBlockerStatus] finds all done, the
    tasks for which the row loop computes [isAvailable]; it is at most
    the number of pending tasks.  The loop completes exactly when
    [getBlockerStatus] can read the [blockedBy] of every pending task:
    that of another task is not looked at. *)
Theorem X18_available_count allTasks tasks :
  match count_available allTasks tasks 0 with
  | Some n =>
      n = List.length (List.filter (available_task allTasks) tasks)
      /\ (n <= List.length (List.filter (status_is "pending") tasks))%nat
      /\ Forall (fun t => status_is "pending" t = true ->
                          getBlockerStatus t allTasks <> None) tasks
  | None =>
      exists t, In t tasks /\ status_is "pending" t = true
                /\ getBlockerStatus t allTasks = None
  end.
Proof.
  pose proof (count_available_acc allTasks tasks 0) as Hc.
  destruct (count_available allTasks tasks 0) as [n|]; [|exact Hc].
  destruct Hc as [Hn Hall]. simpl in Hn. subst n.
  split; [reflexivity|]. split; [|exact Hall].
  apply filter_length_le. intros t. unfold available_task, isAvailable.
  destruct (getBlockerStatus t allTasks); [|discriminate].
  now intros [Hs _]%andb_true_iff.
Qed.

(** ** The dashboard on top of the server *)

Lemma shown_lists_cases sel data :
  (~ In sel (List.map listId data) /\ shown_lists sel data = firstn 1 data)
  \/ (In sel (List.map listId data)
      /\ shown_lists sel data
         = List.filter (fun l => String.eqb (listId l) sel) data
      /\ shown_lists sel data <> []).
Proof.
  unfold shown_lists.
  destruct (List.filter (fun l => String.eqb (listId l) sel) data) as [|x xs] eqn:Hf.
  - left. split.
    + intros Hin. apply in_map_iff in Hin as (l & Hl & Hin).
      assert (Hx : In l (List.filter (fun l => String.eqb (listId l) sel) data)).
      { apply filter_In. split; [exact Hin|]. subst sel. apply String.eqb_refl. }
      rewrite Hf in Hx. destruct Hx.
    + destruct data; reflexivity.
  - right. assert (Hx : In x (List.filter (fun l => String.eqb (listId l) sel) data)).
    { rewrite Hf. now left. }
    apply filter_In in Hx as [Hin Hid]. apply String.eqb_eq in Hid.
    split; [apply in_map_iff; eauto|]. split; [reflexivity|discriminate].
Qed.

Section DashboardServer.
Context `{Builtins} `{Browser} (cwd homedir : string).

(** X19 (the list the page shows).  On a published snapshot, a page that
    has no hash and no stored selection selects the id the server
    publishes as [selectedListId], and shows the first list, the one
    modified last.  A selection that names no published list, such as the
    stored id of a list that is gone, shows that same first list; a
    selection that names one shows the lists of that id. *)
Theorem X19_page_shows_latest_list_by_default st d :
  reachable cwd homedir st -> dataFile st = Some d ->
  getSelectedListId EmptyString None (taskLists d) = Some (selectedListId d)
  /\ (forall first rest, taskLists d = first :: rest ->
      hd_error (shown_lists (selectedListId d) (taskLists d)) = Some first
      /\ Forall (fun l => (lastModified l <= lastModified first)%Z) rest)
  /\ (forall sel, ~ In sel (List.map listId (taskLists d)) ->
      shown_lists sel (taskLists d) = firstn 1 (taskLists d))
  /\ (forall sel, In sel (List.map listId (taskLists d)) ->
      shown_lists sel (taskLists d)
      = List.filter (fun l => String.eqb (listId l) sel) (taskLists d)
      /\ shown_lists sel (taskLists d) <> []).
Proof.
  intros Hr Hd.
  destruct (published_by_a_pass cwd homedir st d Hr Hd) as (tree & dir & Hp).
  destruct (pass_output_snapshot homedir _ _ _ Hp) as [ks ->].
  pose proof (recency_sorted lastModified (List.map to_list ks)) as Hsorted.
  unfold snapshot_of; cbn [taskLists selectedListId].
  set (tls := Array_sort (by_recency lastModified) (List.map to_list ks)) in *.
  split; [reflexivity|]. split; [|split].
  - intros first rest Htl. rewrite Htl in *. split.
    + unfold shown_lists. cbn [List.filter]. now rewrite String.eqb_refl.
    + inversion Hsorted; subst. assumption.
  - intros sel Hsel. destruct (shown_lists_cases sel tls) as [[_ Hs]|[Hin _]];
      [exact Hs|contradiction].
  - intros sel Hsel. destruct (shown_lists_cases sel tls) as [[Hno _]|[_ Hs]];
      [contradiction|exact Hs].
Qed.

(** X20 ([loadSettings] on GET /api/config).  Whatever state the server
    is in, the configuration it answers passes both checks of the script:
    the page takes over all its agent names and its poll interval, and no
    default of the script survives the first load. *)
Theorem X20_page_adopts_live_config st p :
  reachable cwd homedir st ->
  loadSettings (Some (config_to_json (get_config st))) p
  = {| AGENT_NAMES := List.map JStr (agentNames (currentConfig st));
       polling := JNum (pollInterval (currentConfig st));
       localStorage := localStorage p |}.
Proof.
  intros Hr. destruct (reachable_stable cwd homedir st Hr) as (_ & Hrange & Hne & _).
  unfold get_config. destruct (currentConfig st) as [dir n names]; simpl in *.
  destruct n as [| | |q]; try discriminate.
  unfold loadSettings, config_to_json, json_of_number; simpl.
  destruct names as [|name names]; [congruence|]. simpl.
  unfold in_range in Hrange. apply andb_true_iff in Hrange as [Hlow Hhigh].
  unfold num_ge, num_le, num_of_Z in Hlow, Hhigh.
  assert (Hnz : Qeq_bool q 0 = false).
  { apply not_true_iff_false. intros Hz. apply Qeq_bool_iff in Hz.
    apply Qle_bool_iff in Hlow. rewrite Hz in Hlow. now apply Hlow. }
  rewrite Hnz, Hlow, Hhigh. reflexivity.
Qed.

Lemma saveSettings_rejected now pd pi raw st p k :
  invalid_field (saveSettings_body pd pi raw) k ->
  saveSettings now pd pi raw st p = (st, p)
  /\ exists e, snd (post_config now (Doc (saveSettings_body pd pi raw)) st) = Status400 e.
Proof.
  intros Hk.
  destruct (post_config_invalid st now _ k Hk) as (Hst & e & Hans & _).
  unfold saveSettings. cbv zeta.
  destruct (post_config now (Doc (saveSettings_body pd pi raw)) st) as [st' ans].
  simpl in *. subst. eauto.
Qed.

(** X21 ([saveSettings], refused).  A form whose project directory is
    blank, whose poll interval does not read as a number, or whose agent
    names hold no name between the commas is refused by the server with
    status 400: the server keeps its state, file included, and the page
    keeps its agent names, its polling and its counter. *)
Theorem X21_incomplete_form_saves_nothing now pd pi raw st p :
  str_empty (trim pd) = true \/ isFinite (parseInt10 pi) = false
  \/ form_names raw = [] ->
  saveSettings now pd pi raw st p = (st, p)
  /\ exists e, snd (post_config now (Doc (saveSettings_body pd pi raw)) st) = Status400 e.
Proof.
  intros [Hdir|[Hnum|Hnames]].
  - apply (saveSettings_rejected now pd pi raw st p "projectDir").
    split; [simpl; auto|]. exists (JStr (trim pd)). split; [reflexivity|].
    change (negb (str_empty (trim (trim pd))) = false).
    destruct (trim pd); [|discriminate]. now rewrite trim_empty.
  - apply (saveSettings_rejected now pd pi raw st p "pollInterval").
    split; [simpl; auto|]. exists JNull. split.
    + unfold saveSettings_body, json_of_number. rewrite Hnum. reflexivity.
    + reflexivity.
  - apply (saveSettings_rejected now pd pi raw st p "agentNames").
    split; [simpl; auto|]. exists (JArr []). split.
    + unfold saveSettings_body. rewrite Hnames. reflexivity.
    + reflexivity.
Qed.

Lemma in_range_truthy n :
  in_range n = true -> json_of_number n = JNum n /\ truthy (JNum n) = true.
Proof.
  intros Hrange. destruct n as [| | |q]; try discriminate.
  split; [reflexivity|]. simpl.
  unfold in_range in Hrange. apply andb_true_iff in Hrange as [Hlow _].
  unfold num_ge, num_le, num_of_Z in Hlow. apply negb_true_iff.
  apply not_true_iff_false. intros Hz. apply Qeq_bool_iff in Hz.
  apply Qle_bool_iff in Hlow. rewrite Hz in Hlow. now apply Hlow.
Qed.

(** X22 ([saveSettings], accepted).  When the server accepts the form,
    the configuration it holds and writes to the file is the form and
    nothing of the former configuration: the trimmed directory, the
    integer read from the interval field, which is between 500 and 60000,
    and the trimmed names.  The page takes the saved names and interval
    and sets its agent counter back to 0. *)
Theorem X22_saved_form_replaces_configuration now pd pi raw st p c :
  snd (post_config now (Doc (saveSettings_body pd pi raw)) st) = Status200 c ->
  c = {| projectDir := trim (trim pd);
         pollInterval := parseInt10 pi;
         agentNames := List.map trim (form_names raw) |}
  /\ isInteger (pollInterval c) = true
  /\ in_range (pollInterval c) = true
  /\ agentNames c <> []
  /\ exists st',
       saveSettings now pd pi raw st p
       = (st', {| AGENT_NAMES := List.map JStr (agentNames c);
                  polling := JNum (pollInterval c);
                  localStorage := <["agentCount" := "0"]> (localStorage p) |})
       /\ currentConfig st' = c
       /\ configFile st' = saveConfig c.
Proof.
  intros Hans.
  destruct (post_config_accepted st now _ c Hans) as (Hvalid & Hc & Hfst).
  pose proof (Hvalid "pollInterval" _ ltac:(simpl; auto) eq_refl) as Hpoll.
  pose proof (Hvalid "agentNames" _ ltac:(simpl; auto) eq_refl) as Hnames.
  change (valid_pollInterval (json_of_number (parseInt10 pi)) = true) in Hpoll.
  change (valid_agentNames (JArr (List.map JStr (form_names raw))) = true) in Hnames.
  assert (Hfin : isFinite (parseInt10 pi) = true).
  { destruct (isFinite (parseInt10 pi)) eqn:Hf; [reflexivity|].
    unfold json_of_number in Hpoll. rewrite Hf in Hpoll. discriminate. }
  assert (Hnum : json_of_number (parseInt10 pi) = JNum (parseInt10 pi)).
  { unfold json_of_number. now rewrite Hfin. }
  rewrite Hnum in Hpoll. change (in_range (parseInt10 pi) = true) in Hpoll.
  assert (Hshape : c = {| projectDir := trim (trim pd);
                          pollInterval := parseInt10 pi;
                          agentNames := List.map trim (form_names raw) |}).
  { rewrite Hc. unfold updated, new_projectDir, new_pollInterval, new_agentNames.
    cbn [saveSettings_body prop assoc String.eqb Ascii.eqb Bool.eqb].
    rewrite Hnum.
    change (default (pollInterval (currentConfig st)) (Number (JNum (parseInt10 pi))))
      with (parseInt10 pi).
    cbn [string_of]. f_equal.
    rewrite map_map. reflexivity. }
  split; [exact Hshape|]. rewrite Hshape at 1 2 3. cbn [pollInterval agentNames].
  split; [now apply parseInt10_integer|]. split; [exact Hpoll|]. split.
  { unfold valid_agentNames in Hnames. apply andb_true_iff in Hnames as [Hlen _].
    rewrite length_map in Hlen. destruct (form_names raw); [discriminate|discriminate]. }
  unfold saveSettings. cbv zeta.
  destruct (post_config now (Doc (saveSettings_body pd pi raw)) st) as [st' ans].
  simpl in Hans, Hfst. subst ans st'.
  exists (scheduleWriteFiles now (set_configFile (set_config st c) (saveConfig c))).
  split; [|split; reflexivity].
  f_equal. unfold apply_saved. rewrite Hshape. cbn [pollInterval agentNames].
  destruct (in_range_truthy _ Hpoll) as [-> ->]. reflexivity.
Qed.

Lemma num_lt_of_Z a b : num_lt (num_of_Z a) (num_of_Z b) = (a <? b)%Z.
Proof.
  unfold num_lt, num_of_Z, Qle_bool, inject_Z; simpl.
  destruct (Z.leb_spec (b * 1) (a * 1)), (Z.ltb_spec a b); simpl; try reflexivity; lia.
Qed.

Lemma element_at_of_nat items k :
  element_at items (num_of_Z (Z.of_nat k)) = nth_error items k.
Proof.
  unfold element_at. rewrite isInteger_num_of_Z. unfold num_of_Z.
  rewrite Qfloor_Z, Nat2Z.id.
  assert (Hpos : Qle_bool 0 (inject_Z (Z.of_nat k)) = true).
  { apply Qle_bool_iff. change 0%Q with (inject_Z 0). rewrite <- Zle_Qle. lia. }
  now rewrite Hpos.
Qed.

Lemma next_count k :
  (0 <= k < 2 ^ 53)%Z -> plus (num_of_Z k) (num_of_Z 1) = num_of_Z (k + 1).
Proof. intros Hk. apply plus_exact; lia. Qed.

Lemma getItem_or_0_set v p :
  parseInt10 v <> NaN ->
  getItem_or_0 "agentCount" (setItem "agentCount" v p) = v.
Proof.
  intros Hv. unfold getItem_or_0, setItem; cbn [localStorage].
  rewrite lookup_insert_eq. destruct v; [|reflexivity].
  now rewrite parseInt10_empty in Hv.
Qed.

Lemma launches_count p k :
  getItem_or_0 "agentCount" p = "0" -> (Z.of_nat k <= 2 ^ 53)%Z ->
  parseInt10 (getItem_or_0 "agentCount" (launches k p)) = num_of_Z (Z.of_nat k)
  /\ AGENT_NAMES (launches k p) = AGENT_NAMES p.
Proof.
  intros Hp. induction k as [|k IH]; intros Hk.
  - simpl. rewrite Hp, <- NumberToString_0. split; [|reflexivity].
    apply parseInt10_NumberToString. lia.
  - destruct IH as [Hcount Hnames]; [lia|].
    change (launches (S k) p) with (incrementAgentCount (launches k p)).
    unfold incrementAgentCount. cbv zeta. rewrite Hcount, next_count by lia.
    assert (Hread : parseInt10 (NumberToString (num_of_Z (Z.of_nat k + 1)))
                    = num_of_Z (Z.of_nat k + 1)).
    { apply parseInt10_NumberToString. lia. }
    rewrite getItem_or_0_set by (rewrite Hread; discriminate).
    rewrite Hread. split; [f_equal; lia|exact Hnames].
Qed.

(** X23 (the name of the next agent).  Counting from a counter at 0, as
    after a reset or a saved form, the name shown after [k] launches is
    the [k]-th agent name while the names last, each name once and in
    order, and [agent-] followed by [k + 1] from then on; launches do not
    change the names.  This holds while the counter is below 2^53, up to
    where the script's addition is exact. *)
Theorem X23_agent_names_in_order_then_numbered p k :
  getItem_or_0 "agentCount" p = "0" -> (Z.of_nat k < 2 ^ 53)%Z ->
  getNextAgentName (launches k p)
  = match nth_error (AGENT_NAMES p) k with
    | Some name => Some name
    | None => Some (JStr ("agent-" ++ NumberToString (num_of_Z (Z.of_nat k + 1))))
    end
  /\ AGENT_NAMES (launches k p) = AGENT_NAMES p.
Proof.
  intros Hp Hk. destruct (launches_count p k Hp ltac:(lia)) as [Hcount Hnames].
  split; [|exact Hnames]. unfold getNextAgentName.
  rewrite Hcount, Hnames, num_lt_of_Z, element_at_of_nat, next_count by lia.
  destruct (Z.ltb_spec (Z.of_nat k) (Z.of_nat (List.length (AGENT_NAMES p)))) as [Hlt|Hge].
  - destruct (nth_error (AGENT_NAMES p) k) eqn:Hn; [reflexivity|].
    apply nth_error_None in Hn. lia.
  - assert (Hn : nth_error (AGENT_NAMES p) k = None) by (apply nth_error_None; lia).
    now rewrite Hn.
Qed.
End DashboardServer.

(** * Scenarios

    The theorems above at concrete trees, with the built-ins of
    [Sample]. *)

Import Sample.

(** The scenario of the two lists: the more recent one comes first and is
    selected. *)
Example scenario_order :
  exists d, dataFile st_ab = Some d
            /\ List.map listId (taskLists d) = ["proj-b"; "proj-a"]
            /\ selectedListId d = "proj-b"
            /\ List.map taskCount (availableLists d) = [1%nat; 2%nat].
Proof. eexists. split; [vm_compute; reflexivity|]. repeat split. Qed.

(** C4 on the two lists. *)
Lemma C4_witness :
  exists d, dataFile st_ab = Some d
            /\ StronglySorted (fun a b => (lastModified b <= lastModified a)%Z)
                 (taskLists d)
            /\ selectedListId d = match taskLists d with
                                  | first :: _ => listId first
                                  | [] => EmptyString
                                  end.
Proof.
  eexists. split; [vm_compute; reflexivity|].
  refine (let H := C4_lists_by_recency "/work" "/home/u" st_ab _ _ _ in
          conj (proj1 H) (proj1 (proj2 H))).
  - unfold st_ab. apply reach_main.
  - vm_compute. reflexivity.
Defined.

(** C10 on the two lists. *)
Lemma C10_witness :
  exists d, dataFile st_ab = Some d
            /\ List.map listId (taskLists d) = List.map sum_id (availableLists d).
Proof.
  eexists. split; [vm_compute; reflexivity|].
  refine (proj1 (C10_lists_and_summaries_agree "/work" "/home/u" st_ab _ _ _)).
  - unfold st_ab. apply reach_main.
  - vm_compute. reflexivity.
Defined.





Example zero_is_malformed :
  malformed (task_file "zero.json" (JNum (num_of_Z 0)) 4100) = true.
Proof. reflexivity. Qed.

(** ** The order of tasks *)

(** C5 on a list whose ids are 1 and 2. *)
Lemma C5_witness :
  exists d, dataFile (writeFiles "/home/u" tree_ab st_ab) = Some d
            /\ forall tl, In tl (taskLists d) -> listId tl = "proj-a" ->
                          ascending_ids (tasks tl).
Proof.
  destruct (C5_numeric_ids_sorted_stably "/home/u" st_ab [proj_a; proj_b] proj_a
              [task_file "1.json" (task "1" "write the parser" "pending") 1000;
               task_file "2.json" (task "2" "set up the build" "completed") 900])
    as (d & Hd & Hall).
  - repeat constructor; simpl; intuition discriminate.
  - simpl; auto.
  - reflexivity.
  - exists d. split; [exact Hd|]. intros tl Htl Hid.
    refine (proj1 (proj2 (proj2 (Hall tl Htl Hid) _))).
    repeat constructor.
Defined.

(** C5 as stated fails: the published list keeps the scan order, 10
    before 7.  The task without id compares equal to both its neighbours,
    so that the array is in order as far as the comparator tells. *)
Lemma C5_counterexample :
  reachable "/work" "/home/u" st_unordered
  /\ exists d tl, dataFile st_unordered = Some d
                  /\ In tl (taskLists d)
                  /\ List.map numeric_id (tasks tl) = [num_of_Z 10; NaN; num_of_Z 7]
                  /\ ~ ascending_ids (tasks tl).
Proof.
  split; [apply reach_main|].
  eexists. eexists. split; [vm_compute; reflexivity|].
  split; [left; reflexivity|]. split; [reflexivity|].
  intros Hs. inversion Hs as [|a l _ Hall]; subst.
  inversion Hall as [|b l' _ Hall']; subst.
  inversion Hall' as [|c l'' Hlt _]; subst.
  specialize (Hlt eq_refl eq_refl). vm_compute in Hlt. discriminate.
Qed.

(** ** Archiving *)

Example unlink_path_list :
  basename (dirname "/home/u/.claude/tasks/proj-b/1.json") = "proj-b"
  /\ ignored_path "/home/u/.claude/tasks/proj-b/1.json" = false
  /\ ignored_path "/home/u/.claude/tasks/.archive/proj-b_2026.json" = true
  /\ ignored_path "/home/u/.claude/tasks/proj-b/prompt.md" = true.
Proof. repeat split. Qed.



(** ** The configuration *)



Example config_write_rejected :
  post_config 8000 (Doc (JObj [("projectDir", JStr "/srv/app");
                               ("pollInterval", JNum (num_of_Z 100))])) st_ab
  = (st_ab, Status400 err_pollInterval).
Proof. reflexivity. Qed.

Example config_write_accepted :
  let r := post_config 8000 (Doc (JObj [("agentNames", JArr [JStr " x "; JStr "y"])])) st_ab in
  snd r = Status200 {| projectDir := "/work";
                       pollInterval := num_of_Z 2000;
                       agentNames := ["x"; "y"] |}
  /\ configFile (fst r) = saveConfig (currentConfig (fst r))
  /\ writeDebounceTimer (fst r) = Some 8300%Z.
Proof. repeat split. Qed.

(** C7 on a configuration with two agents. *)
Lemma C7_witness : loadConfig "/elsewhere" (saveConfig some_config) = some_config.
Proof.
  refine (proj1 (C7_config_round_trip "/home/u" "/elsewhere" (DEFAULT_CONFIG "/work")
                   some_config some_config _)).
  vm_compute. reflexivity.
Defined.

(** C8 as stated fails: a write of [pollInterval: 1000.5] is accepted, and
    the live configuration holds a number that is no integer. *)
Lemma C8_counterexample :
  reachable "/work" "/home/u" st_half
  /\ pollInterval (currentConfig st_half) = Fin (2001 # 2)
  /\ isInteger (pollInterval (currentConfig st_half)) = false.
Proof.
  split; [apply reach_step, reach_main|]. split; reflexivity.
Qed.

(** So is, on load, a [pollInterval] of 700.5 in the file. *)
Example load_keeps_fraction :
  pollInterval (loadConfig "/work"
                  (Text (Doc (JObj [("pollInterval", JNum (Fin (1401 # 2)))]))))
  = Fin (1401 # 2).
Proof. reflexivity. Qed.

(** C8 on the state after that write. *)
Lemma C8_witness :
  in_range (pollInterval (currentConfig st_half)) = true.
Proof.
  refine (proj1 (C8_pollInterval_in_range "/work" "/home/u") st_half _).
  apply reach_step, reach_main.
Defined.

(** ** The debounce timer *)

(** C6 on a burst of four requests. *)
Lemma C6_witness :
  let first := Add 10000 "/home/u/.claude/tasks/proj-a/3.json" in
  let st1 := run "/work" "/home/u" (fun _ => tree_ab) (first :: burst) st_ab in
  passes st1 = passes st_ab
  /\ writeDebounceTimer st1 = Some 10900%Z
  /\ passes (elapse "/home/u" (fun _ => tree_ab) 10900 st1) = S (passes st_ab).
Proof.
  intros first st1.
  destruct (C6_burst_gives_one_pass "/work" "/home/u" (fun _ => tree_ab) st_ab first burst)
    as (Hp & Ht & _ & Hfire & _).
  - intros due Hd. vm_compute in Hd. discriminate.
  - reflexivity.
  - simpl. repeat split; try lia; reflexivity.
  - split; [exact Hp|]. split; [exact Ht|]. apply Hfire. simpl. lia.
Defined.

(** ** The further properties at concrete trees *)

Lemma NoDup_names_ab : List.NoDup (List.map dname [proj_a; proj_b]).
Proof. repeat constructor; simpl; intuition discriminate. Qed.

(** X1 on the two lists: [proj-a] is stamped with the later of its two
    files. *)
Lemma X1_witness :
  exists d, dataFile (writeFiles "/home/u" tree_ab st_ab) = Some d
            /\ forall tl, In tl (taskLists d) -> listId tl = "proj-a" ->
                          (1000 <= lastModified tl)%Z.
Proof.
  destruct (X1_lastModified_is_latest_mtime "/home/u" st_ab [proj_a; proj_b] proj_a
              (default [] (entries proj_a)) NoDup_names_ab)
    as (d & Hd & Hall); [simpl; auto|reflexivity|].
  exists d. split; [exact Hd|]. intros tl Hin Hid.
  destruct (Hall tl Hin Hid) as (_ & Hge & _).
  apply (Hge (task_file "1.json" (task "1" "write the parser" "pending") 1000));
    [simpl; auto|reflexivity].
Defined.

(** X2 on the twins: [zeta] stays before [alpha]. *)
Lemma X2_witness :
  exists d, dataFile (writeFiles "/home/u" (TasksDir twins) st_ab) = Some d
            /\ List.map listId
                 (List.filter (fun tl => Z.eqb (lastModified tl) 8000) (taskLists d))
               = ["zeta"; "alpha"].
Proof.
  eexists. split; [vm_compute; reflexivity|].
  rewrite (proj1 (X2_recency_ties_keep_listing_order "/home/u" st_ab twins _ 8000 eq_refl)).
  vm_compute. reflexivity.
Defined.

(** X3 on the two lists: the removal of the task file of [proj-b]. *)
Lemma X3_witness :
  archived (on_unlink 5000 (5001, 5002) "/home/u/.claude/tasks/proj-b/1.json"
              (writeFiles "/home/u" tree_ab st_ab))
  = [{| archive_name := ("proj-b", 5001);
        archive_id := "proj-b";
        archivedAt := 5002;
        archive_tasks := [task "1" "run the tests" "in_progress"] |}].
Proof.
  refine (X3_archive_holds_last_published "/home/u" st_ab [proj_a; proj_b] _
            {| listId := "proj-b";
               tasks := [task "1" "run the tests" "in_progress"];
               lastModified := 2000 |}
            "1.json" 5000 (5001, 5002) NoDup_names_ab _ _ _ _ _).
  - vm_compute. reflexivity.
  - simpl. auto.
  - reflexivity.
  - reflexivity.
  - reflexivity.
Defined.

(** X4 on the two lists. *)
Lemma X4_witness :
  taskDataCache st_ab !! "proj-b" = Some cached_b /\ cached_tasks cached_b <> [].
Proof.
  assert (Hc : taskDataCache st_ab !! "proj-b" = Some cached_b) by (vm_compute; reflexivity).
  split; [exact Hc|].
  apply (X4_cache_entries_hold_tasks "/work" "/home/u" st_ab "proj-b" cached_b);
    [apply reach_main|exact Hc].
Defined.

(** X5: a pass on a tree without [proj-b] leaves its cache entry. *)
Lemma X5_witness :
  taskDataCache (writeFiles "/home/u" (TasksDir [proj_a]) st_ab) !! "proj-b"
  = Some cached_b.
Proof.
  apply X5_pass_keeps_other_entries; [vm_compute; reflexivity|].
  intros d tl Hd Hin. vm_compute in Hd. injection Hd as <-.
  vm_compute in Hin. destruct Hin as [<-|[]]. discriminate.
Defined.

(** X6: the requested pass finds the tasks directory unreadable. *)
Lemma X6_witness :
  let st' := timer_fires "/home/u" 10400 TasksDirError st_pending in
  dataFile st' = dataFile st_pending /\ passes st' = S (passes st_pending).
Proof.
  intros st'.
  destruct (X6_failed_pass_keeps_snapshot "/home/u" st_pending 10400 10400)
    as (Hd & _ & _ & _ & _ & Hp & _); [reflexivity|lia|].
  split; [exact Hd|exact Hp].
Defined.

(** X7 on the two lists. *)
Lemma X7_witness :
  exists d, dataFile st_ab = Some d
            /\ Forall2 (fun tl s =>
                          pendingCount s
                          = List.length (List.filter (status_is "pending") (tasks tl)))
                 (taskLists d) (availableLists d).
Proof.
  eexists. split; [vm_compute; reflexivity|].
  eapply Forall2_impl;
    [apply (X7_summary_counts_match_list "/work" "/home/u" st_ab);
       [apply reach_main|vm_compute; reflexivity]|].
  intros tl s Hs. exact (proj1 Hs).
Defined.

(** X9: the list [old.archive] is published, and the removal of its task
    file is not seen. *)
Lemma X9_witness :
  let st := writeFiles "/home/u" (TasksDir [old_archive]) st_ab in
  (exists d tl, dataFile st = Some d /\ In tl (taskLists d)
                /\ listId tl = "old.archive")
  /\ on_unlink 7100 (7101, 7102) "/home/u/.claude/tasks/old.archive/1.json" st = st.
Proof.
  intros st.
  destruct (X9_archive_in_a_name_mutes_the_watcher "/home/u" st_ab [old_archive]
              old_archive (default [] (entries old_archive)) "1.json" 7100 (7101, 7102))
    as (Hpub & Hun & _); try reflexivity; try discriminate; [simpl; auto|].
  split; [exact Hpub|exact Hun].
Defined.

Lemma reachable_st_ab : reachable "/work" "/home/u" st_ab.
Proof. unfold st_ab. apply reach_main. Qed.

(** X10 on the two lists. *)
Lemma X10_witness :
  str_empty (projectDir (currentConfig st_ab)) = false
  /\ agentNames (currentConfig st_ab) <> [].
Proof.
  destruct (X10_live_config_is_well_formed "/work" "/home/u" st_ab eq_refl reachable_st_ab)
    as (Hdir & _ & Hnames & _).
  split; [exact Hdir|exact Hnames].
Defined.

(** X12: a start that finds no configuration file and an old one to
    migrate holds what the migrated file loads. *)
Lemma X12_witness :
  let st := start "/work" "/home/u" (Text (Doc (config_to_json some_config))) Absent
              tree_ab in
  loadConfig "/work" (configFile st) = currentConfig st
  /\ currentConfig st = some_config.
Proof.
  intros st. split; [|vm_compute; reflexivity].
  apply (X12_live_config_is_what_the_file_loads "/work" "/home/u"). apply settled_start.
Defined.

(** X14: a new project directory; the watcher reports the write after
    200 ms, and one pass runs, or after 500 ms, and two passes run. *)
Lemma X14_witness :
  let input := JObj [("projectDir", JStr "/srv/app")] in
  let st1 := fst (post_config 9000 (Doc input) st_ab) in
  passes (elapse "/home/u" (fun _ => tree_ab) 9500
            (deliver "/work" "/home/u" (fun _ => tree_ab) st1 (ConfigChange 9200)))
  = S (passes st_ab)
  /\ passes (elapse "/home/u" (fun _ => tree_ab) 9800
               (deliver "/work" "/home/u" (fun _ => tree_ab) st1 (ConfigChange 9500)))
     = S (S (passes st_ab)).
Proof.
  intros input st1. subst st1.
  assert (Hc : snd (post_config 9000 (Doc input) st_ab)
               = Status200 (updated input (currentConfig st_ab)))
    by (vm_compute; reflexivity).
  destruct (X14_write_then_echo_then_pass "/work" "/home/u" st_ab 9000 input _
              (fun _ => tree_ab) 9200 reachable_st_ab Hc ltac:(lia))
    as (_ & _ & _ & _ & _ & _ & Hsoon & Hpass).
  destruct (X14_write_then_echo_then_pass "/work" "/home/u" st_ab 9000 input _
              (fun _ => tree_ab) 9500 reachable_st_ab Hc ltac:(lia))
    as (_ & _ & _ & _ & _ & _ & Hlate & Hpass').
  split.
  - rewrite (proj1 (Hpass 9500%Z ltac:(lia))). rewrite Hsoon. reflexivity.
  - rewrite (proj1 (Hpass' 9800%Z ltac:(lia))). rewrite Hlate. reflexivity.
Defined.

(** X15: a subject of 19 characters cut to 10. *)
Lemma X15_witness :
  truncate "the quick brown fox" 10 = "the qui..."
  /\ Z.of_nat (String.length (truncate "the quick brown fox" 10)) = 10%Z.
Proof.
  destruct (X15_truncate_fits "the quick brown fox" 10 ltac:(lia)) as (_ & _ & Hcut).
  apply Hcut. reflexivity.
Defined.

(** X17 on the plan: the build is ready, the release waits on a task
    that does not exist. *)
Lemma X17_witness :
  (exists bs, getBlockerStatus (task_after "2" "build" "pending" ["1"]) plan = Some bs
              /\ isBlocked bs = false /\ ready bs = true)
  /\ (exists bs, getBlockerStatus (task_after "3" "release" "pending" ["2"; "9"]) plan
                 = Some bs
                 /\ isBlocked bs = true).
Proof.
  split.
  - destruct (X17_blocked_until_all_blockers_done
                (task_after "2" "build" "pending" ["1"]) plan [JStr "1"] eq_refl)
      as (bs & Hbs & _ & Hfree & Hready).
    assert (Hall : Forall (completed_blocker plan) [JStr "1"]).
    { repeat constructor. eexists. split; reflexivity. }
    exists bs. split; [exact Hbs|]. split; [now apply Hfree|].
    apply Hready. split; [discriminate|exact Hall].
  - destruct (X17_blocked_until_all_blockers_done
                (task_after "3" "release" "pending" ["2"; "9"]) plan
                [JStr "2"; JStr "9"] eq_refl)
      as (bs & Hbs & _ & Hfree & _).
    exists bs. split; [exact Hbs|].
    destruct (isBlocked bs); [reflexivity|]. exfalso.
    assert (Hall := proj1 Hfree eq_refl).
    inversion Hall as [|? ? _ Hrest]; subst.
    inversion Hrest as [|? ? (b & Hb & _) _]; subst. discriminate.
Defined.

(** The count leaves out a completed task whose [blockedBy] cannot be
    read, which the row loop would not survive. *)
Example count_skips_other_tasks :
  let stale := JObj [("id", JStr "4"); ("subject", JStr "ship");
                     ("status", JStr "completed"); ("blockedBy", JStr "design")] in
  getBlockerStatus stale (plan ++ [stale]) = None
  /\ count_available (plan ++ [stale]) (plan ++ [stale]) 0 = Some 1%nat.
Proof. split; reflexivity. Qed.

(** X19 on the two lists: the page selects [proj-b], and the stored id
    of a list that is gone shows the first list. *)
Lemma X19_witness :
  exists d, dataFile st_ab = Some d
            /\ getSelectedListId EmptyString None (taskLists d) = Some "proj-b"
            /\ shown_lists "gone" (taskLists d) = firstn 1 (taskLists d).
Proof.
  eexists. split; [vm_compute; reflexivity|].
  refine (let H := X19_page_shows_latest_list_by_default "/work" "/home/u" st_ab _
                     reachable_st_ab eq_refl in
          conj (proj1 H) (proj1 (proj2 (proj2 H)) "gone" _)).
  simpl. intuition discriminate.
Defined.

(** X20: the page of a server started without a configuration file polls
    every 2000 ms. *)
Lemma X20_witness :
  polling (loadSettings (Some (config_to_json (get_config st_ab))) fresh_page)
  = JNum (num_of_Z 2000).
Proof.
  rewrite (X20_page_adopts_live_config "/work" "/home/u" st_ab fresh_page reachable_st_ab).
  vm_compute. reflexivity.
Defined.

(** X21: an interval that is no number. *)
Lemma X21_witness :
  saveSettings 9000 "/srv/app" "soon" "a, b" st_ab fresh_page = (st_ab, fresh_page).
Proof.
  apply (X21_incomplete_form_saves_nothing 9000 "/srv/app" "soon" "a, b" st_ab fresh_page).
  right; left. vm_compute. reflexivity.
Defined.

(** X22: a form with spaces, a fraction and empty pieces. *)
Lemma X22_witness :
  exists st',
    saveSettings 9000 "/srv/app " "1500.7" " a, b,," st_ab fresh_page
    = (st', {| AGENT_NAMES := [JStr "a"; JStr "b"];
               polling := JNum (num_of_Z 1500);
               localStorage := <["agentCount" := "0"]> ∅ |})
    /\ currentConfig st' = some_config.
Proof.
  destruct (X22_saved_form_replaces_configuration 9000 "/srv/app " "1500.7" " a, b,,"
              st_ab fresh_page some_config)
    as (_ & _ & _ & _ & st' & Hs & Hc & _); [vm_compute; reflexivity|].
  exists st'. split; [exact Hs|exact Hc].
Defined.

(** X23: two names, then numbers. *)
Lemma X23_witness :
  getNextAgentName (launches 1 fresh_page) = Some (JStr "beta")
  /\ getNextAgentName (launches 2 fresh_page) = Some (JStr "agent-3").
Proof.
  split.
  - exact (proj1 (X23_agent_names_in_order_then_numbered fresh_page 1 eq_refl eq_refl)).
  - exact (proj1 (X23_agent_names_in_order_then_numbered fresh_page 2 eq_refl eq_refl)).
Defined.
